(** * Viwoods sync: a shallow embedding of [viwoods_sync.py]

    The synchronizer mirrors the note tree of a tablet (reached over HTTP)
    into a local directory and keeps a ledger (an SQLite table) of what it
    has fetched.  The embedding below follows the Python source function by
    function.  Effects are explicit: every method of [ViwoodsSync] is a
    computation over a [world] holding the local file system, the ledger,
    the statistics dictionary, the list of HTTP requests sent so far and a
    clock.  A computation either returns a value or raises a Python
    exception; the state reached when an exception is raised is kept, as in
    Python.

    Not modelled: the [print] calls (progress output) and the values that
    only feed them, the timeouts of the HTTP session, and faults of the
    SQLite file itself.  The JSON payloads are typed as the tablet
    documents them: the [data] member of a listing, when present, is an
    array of entry objects whose fields, when present, are strings,
    booleans and integers.  Every exception of the model is a subclass of
    Python's [Exception], which is what the two [try] statements catch. *)

From Stdlib Require Import ZArith Ascii String.
From Stdlib.Strings Require Import Byte.
From stdpp Require Import gmap strings list fin_maps.

Local Open Scope Z_scope.
Local Open Scope string_scope.

(** ** Strings and paths *)

(** [str.endswith] *)
Definition endswith (s suffix : string) : bool :=
  let n := String.length s in
  let k := String.length suffix in
  if (k <=? n)%nat
  then bool_decide (substring (n - k) k s = suffix)
  else false.

(** [str.split('/')]: never empty, keeps empty fields. *)
Fixpoint split_slash (s : string) : list string :=
  match s with
  | EmptyString => [""]
  | String c s' =>
      if bool_decide (c = "/"%char) then "" :: split_slash s'
      else match split_slash s' with
           | [] => [String c ""]
           | h :: t => String c h :: t
           end
  end.

(** ['/'.join(parts)] *)
Fixpoint join_slash (parts : list string) : string :=
  match parts with
  | [] => ""
  | [p] => p
  | p :: rest => p ++ "/" ++ join_slash rest
  end.

(** A [pathlib.Path] is kept as its list of components, innermost first:
    [Path("a/b/c")] is [["c"; "b"; "a"]], so that [.parent] is the tail.
    Paths are taken from the root of the local file system, which is [[]]. *)
Abbreviation path := (list string).

Definition parent (p : path) : path := tail p.

(** The components pathlib keeps when it parses a string: empty fields and
    ["."] are dropped. *)
Definition path_parts (s : string) : list string :=
  filter (λ c, c ≠ "" ∧ c ≠ ".") (split_slash s).

Definition is_absolute (s : string) : bool :=
  match s with
  | String c _ => bool_decide (c = "/"%char)
  | EmptyString => false
  end.

(** [p / s]: an absolute right operand replaces the left one. *)
Definition path_div (p : path) (s : string) : path :=
  if is_absolute s then rev (path_parts s) else (rev (path_parts s) ++ p)%list.

(** ** Data model *)

(** One item of a listing; every field may be missing from the JSON object
    (the code reads them with [dict.get]). *)
Record entry := Entry {
  fileName : option string;
  isFolder : option bool;
  noteId : option string;
  updateTime : option Z;
  appType : option string
}.

(** One row of the table [synced_files], without its key [file_path]. *)
Record sync_record := SyncRecord {
  row_note_id : string;
  row_update_time : Z;
  row_file_size : Z;
  row_last_sync : string;
  row_checksum : string
}.

(** The [stats] dictionary. *)
Record sync_stats := SyncStats {
  folders : nat;
  downloaded : nat;
  skipped : nat;
  failed : nat
}.

Definition no_stats : sync_stats := SyncStats 0 0 0 0.

Inductive node :=
| File (content : list byte)
| Dir.

Inductive exn :=
| ConnectionError
| JSONDecodeError
| AttributeError
| FileExistsError
| FileNotFoundError
| NotADirectoryError
| IsADirectoryError
| OverflowError
| RecursionError.

(** ** The tablet *)

(** The three requests the tool sends, with the query parameters that vary. *)
Inductive request :=
| GetChildFolderList (app_type folder_name : string) (folder_id : option string)
| PackageFile (app_type file_url file_name folder_id : string)
| Download (file_path : string).

(** What [response.json()] gives: a parse error, a JSON value that is not
    an object, or the envelope with its [code] and [data] members. *)
Inductive json (A : Type) :=
| NotJson
| NotObject
| Envelope (code : option Z) (data : option A).
Arguments NotJson {A}.
Arguments NotObject {A}.
Arguments Envelope {A} code data.

(** The [data] member of a [packageFile] answer. *)
Inductive package_data :=
| PathString (s : string)
| NotString.

(** The body of a [download] answer as [iter_content] delivers it: the
    chunks, and whether the connection breaks after the last of them. *)
Record stream := Stream {
  chunks : list (list byte);
  broken : bool
}.

(** [session.get] raises, or gives a response with a status code. *)
Inductive http (B : Type) :=
| Unreachable
| Reply (status_code : Z) (body : B).
Arguments Unreachable {B}.
Arguments Reply {B} status_code body.

(** The environment of a run: the tablet, whose answers may depend on the
    requests received so far, the digest and clock of the Python library,
    the interpreter's recursion limit and the output directory. *)
Record device := Device {
  list_reply : list request → request → http (json (list entry));
  package_reply : list request → request → http (json package_data);
  download_reply : list request → request → http stream;
  md5_hexdigest : list byte → string;
  isoformat : nat → string;
  recursion_limit : nat;
  local_dir : path
}.

(** ** State and effects *)

Record world := World {
  fs : gmap path node;
  ledger : gmap string sync_record;
  stats : sync_stats;
  sent : list request;
  clock : nat
}.

Inductive res (A : Type) :=
| Ok (a : A)
| Raise (e : exn).
Arguments Ok {A} a.
Arguments Raise {A} e.

Definition M (A : Type) : Type := world → res A * world.

Definition ret {A} (a : A) : M A := λ w, (Ok a, w).

Definition bind {A B} (m : M A) (k : A → M B) : M B :=
  λ w, match m w with
       | (Ok a, w') => k a w'
       | (Raise e, w') => (Raise e, w')
       end.

Definition raise {A} (e : exn) : M A := λ w, (Raise e, w).

(** [try: m  except Exception: h] *)
Definition try_except {A} (m : M A) (h : exn → M A) : M A :=
  λ w, match m w with
       | (Ok a, w') => (Ok a, w')
       | (Raise e, w') => h e w'
       end.

Definition gets {A} (f : world → A) : M A := λ w, (Ok (f w), w).

Definition modify (f : world → world) : M unit := λ w, (Ok tt, f w).

Declare Scope py_scope.
Delimit Scope py_scope with py.
Notation "x <- m ;; k" := (bind m (λ x, k))
  (at level 100, m at next level, k at level 200, right associativity) : py_scope.
Notation "m ;; k" := (bind m (λ _, k))
  (at level 100, k at level 200, right associativity) : py_scope.
Local Open Scope py_scope.

(** [for x in l: body x] *)
Fixpoint for_each {A} (l : list A) (body : A → M unit) : M unit :=
  match l with
  | [] => ret tt
  | x :: l' => body x ;; for_each l' body
  end.

Definition set_fs (f : gmap path node → gmap path node) (w : world) : world :=
  World (f (fs w)) (ledger w) (stats w) (sent w) (clock w).
Definition set_ledger (f : gmap string sync_record → gmap string sync_record)
    (w : world) : world :=
  World (fs w) (f (ledger w)) (stats w) (sent w) (clock w).
Definition set_stats (f : sync_stats → sync_stats) (w : world) : world :=
  World (fs w) (ledger w) (f (stats w)) (sent w) (clock w).
Definition log_request (r : request) (w : world) : world :=
  World (fs w) (ledger w) (stats w) (sent w ++ [r])%list (clock w).
Definition tick (w : world) : world :=
  World (fs w) (ledger w) (stats w) (sent w) (S (clock w)).

(** ** The local file system *)

(** The root always exists and is a directory. *)
Definition lookup_node (t : gmap path node) (p : path) : option node :=
  match p with
  | [] => Some Dir
  | _ => t !! p
  end.

(** [Path.exists()] *)
Definition path_exists (t : gmap path node) (p : path) : bool :=
  bool_decide (is_Some (lookup_node t p)).

(** [Path.mkdir(parents=True, exist_ok=True)], as pathlib does it:
    [os.mkdir] first; when the parent is missing, make the parent and retry;
    an existing directory is accepted, an existing file is an error. *)
Fixpoint mkdir_tree (p : path) (t : gmap path node) : res unit * gmap path node :=
  match lookup_node t p with
  | Some Dir => (Ok tt, t)
  | Some (File _) => (Raise FileExistsError, t)
  | None =>
      match p with
      | [] => (Ok tt, t)
      | _ :: up =>
          match lookup_node t up with
          | Some Dir => (Ok tt, <[p := Dir]> t)
          | Some (File _) => (Raise NotADirectoryError, t)
          | None =>
              match mkdir_tree up t with
              | (Ok _, t') => (Ok tt, <[p := Dir]> t')
              | (Raise e, t') => (Raise e, t')
              end
          end
      end
  end.

Definition mkdir (p : path) : M unit :=
  λ w, let '(r, t) := mkdir_tree p (fs w) in (r, set_fs (λ _, t) w).

(** [open(p, 'wb')]: creates or truncates the file. *)
Definition open_wb (p : path) : M unit :=
  λ w, match lookup_node (fs w) p with
       | Some Dir => (Raise IsADirectoryError, w)
       | _ =>
           match lookup_node (fs w) (parent p) with
           | Some Dir => (Ok tt, set_fs (insert p (File [])) w)
           | Some (File _) => (Raise NotADirectoryError, w)
           | None => (Raise FileNotFoundError, w)
           end
       end.

(** [f.write(chunk)] on the file opened at [p]. *)
Definition write (p : path) (chunk : list byte) : M unit :=
  λ w, match fs w !! p with
       | Some (File c) => (Ok tt, set_fs (insert p (File (c ++ chunk)%list)) w)
       | _ => (Raise FileNotFoundError, w)
       end.

(** [Path.stat().st_size]; a directory reports one block. *)
Definition st_size (p : path) : M nat :=
  λ w, match lookup_node (fs w) p with
       | Some (File c) => (Ok (length c), w)
       | Some Dir => (Ok 4096%nat, w)
       | None => (Raise FileNotFoundError, w)
       end.

(** [Path.unlink()] *)
Definition unlink (p : path) : M unit :=
  λ w, match lookup_node (fs w) p with
       | Some (File _) => (Ok tt, set_fs (delete p) w)
       | Some Dir => (Raise IsADirectoryError, w)
       | None => (Raise FileNotFoundError, w)
       end.

(** [open(p, 'rb')] followed by reading the whole file. *)
Definition read_file (p : path) : M (list byte) :=
  λ w, match lookup_node (fs w) p with
       | Some (File c) => (Ok c, w)
       | Some Dir => (Raise IsADirectoryError, w)
       | None => (Raise FileNotFoundError, w)
       end.

(** ** The methods of [ViwoodsSync] *)

Definition or_default {A} (d : A) (o : option A) : A :=
  match o with
  | Some a => a
  | None => d
  end.

(** [session.get(url, params=...)]: the request is sent, then either the
    call raises or a response comes back. *)
Definition session_get {B} (reply : list request → request → http B)
    (r : request) : M (Z * B) :=
  λ w, match reply (sent w) r with
       | Unreachable => (Raise ConnectionError, log_request r w)
       | Reply status body => (Ok (status, body), log_request r w)
       end.

(** [response.json()] *)
Definition response_json {A} (body : json A) : M (json A) :=
  match body with
  | NotJson => raise JSONDecodeError
  | _ => ret body
  end.

(** [data.get('code')] and [data.get('data')]: only a dictionary has [get]. *)
Definition get_code {A} (data : json A) : M (option Z) :=
  match data with
  | Envelope code _ => ret code
  | _ => raise AttributeError
  end.

Definition get_data {A} (data : json A) : M (option A) :=
  match data with
  | Envelope _ payload => ret payload
  | _ => raise AttributeError
  end.

(** The truth value of a string or [None] in a condition. *)
Definition truthy_str (o : option string) : bool :=
  match o with
  | Some s => negb (bool_decide (s = ""))
  | None => false
  end.

Definition default_folders : list string := ["Paper"; "Daily"; "Meeting"; "Memo"].

Section ViwoodsSync.
Context (E : device).

Definition list_folder (app_type folder_name : string)
    (folder_id : option string) : M (list entry) :=
  let params :=
    GetChildFolderList app_type folder_name
      (if truthy_str folder_id then folder_id else None) in
  try_except
    (response <- session_get (list_reply E) params ;;
     if bool_decide (response.1 = 200) then
       data <- response_json response.2 ;;
       code <- get_code data ;;
       if bool_decide (code = Some 200) then
         payload <- get_data data ;;
         ret (or_default [] payload)
       else ret []
     else ret [])
    (λ _, ret []).

(** The file name with the [.note] extension, added when it is absent. *)
Definition normalized_name (item_name : string) : string :=
  if endswith item_name ".note" then item_name else item_name ++ ".note".

(** The body of [with open(local_path, 'wb') as f]. *)
Definition write_stream (local_path : path) (s : stream) : M unit :=
  for_each (chunks s)
    (λ chunk, match chunk with
              | [] => ret tt
              | _ => write local_path chunk
              end) ;;
  if broken s then raise ConnectionError else ret tt.

(** The suite of the [try] statement of [download_file]. *)
Definition download_attempt (file_name_with_ext note_id folder_id app_type : string)
    (local_path : path) : M bool :=
  response <- session_get (package_reply E)
    (PackageFile app_type note_id file_name_with_ext folder_id) ;;
  if negb (bool_decide (response.1 = 200)) then ret false else
  data <- response_json response.2 ;;
  code <- get_code data ;;
  if negb (bool_decide (code = Some 200)) then ret false else
  file_path <- get_data data ;;
  match file_path with
  | Some (PathString file_path) =>
      if bool_decide (file_path = "") then ret false else
      response <- session_get (download_reply E) (Download file_path) ;;
      if negb (bool_decide (response.1 = 200)) then ret false else
      mkdir (parent local_path) ;;
      open_wb local_path ;;
      write_stream local_path response.2 ;;
      size <- st_size local_path ;;
      if bool_decide (size = 0%nat) then
        unlink local_path ;;
        ret false
      else ret true
  | _ => ret false
  end.

Definition download_file (file_name note_id folder_id app_type : string)
    (local_path : path) : M bool :=
  let file_name_with_ext := normalized_name file_name in
  try_except
    (download_attempt file_name_with_ext note_id folder_id app_type local_path)
    (λ _, ret false).

Definition calculate_checksum (file_path : path) : M string :=
  content <- read_file file_path ;;
  ret (md5_hexdigest E content).

Definition is_file_synced (remote_path : string) (update_time : Z) : M bool :=
  result <- gets (λ w, ledger w !! remote_path) ;;
  match result with
  | Some row => ret (bool_decide (update_time ≤ row_update_time row)%Z)
  | None => ret false
  end.

(** [datetime.now().isoformat()] *)
Definition datetime_now : M string :=
  λ w, (Ok (isoformat E (clock w)), tick w).

(** An SQLite INTEGER holds 64 bits; a larger Python integer cannot be
    bound to a statement. *)
Definition fits_int64 (z : Z) : bool :=
  bool_decide (- 2 ^ 63 ≤ z < 2 ^ 63)%Z.

(** [INSERT OR REPLACE INTO synced_files ...] *)
Definition insert_or_replace (remote_path : string) (row : sync_record) : M unit :=
  if fits_int64 (row_update_time row) && fits_int64 (row_file_size row)
  then modify (set_ledger (insert remote_path row))
  else raise OverflowError.

Definition record_sync (remote_path note_id : string) (update_time : Z)
    (file_size : nat) (local_path : path) : M unit :=
  checksum <- calculate_checksum local_path ;;
  now <- datetime_now ;;
  insert_or_replace remote_path
    (SyncRecord note_id update_time (Z.of_nat file_size) now checksum).

Definition bump_folders : M unit :=
  modify (set_stats (λ s, SyncStats (S (folders s)) (downloaded s) (skipped s) (failed s))).
Definition bump_downloaded : M unit :=
  modify (set_stats (λ s, SyncStats (folders s) (S (downloaded s)) (skipped s) (failed s))).
Definition bump_skipped : M unit :=
  modify (set_stats (λ s, SyncStats (folders s) (downloaded s) (S (skipped s)) (failed s))).
Definition bump_failed : M unit :=
  modify (set_stats (λ s, SyncStats (folders s) (downloaded s) (skipped s) (S (failed s)))).

Definition remote_identifier (app_type folder_id note_id file_name : string) : string :=
  app_type ++ "/" ++ folder_id ++ "/" ++ note_id ++ "/" ++ file_name.

(** The [else] branch of the loop of [sync_folder_recursive]: one file. *)
Definition sync_file (app_type folder_id : string) (local_path : path)
    (item_name note_id : string) (update_time : Z) : M unit :=
  let file_name := normalized_name item_name in
  let local_file_path := path_div local_path file_name in
  let remote_identifier := remote_identifier app_type folder_id note_id file_name in
  synced <- is_file_synced remote_identifier update_time ;;
  present <- gets (λ w, path_exists (fs w) local_file_path) ;;
  if synced && present then bump_skipped
  else
    fetched <- download_file item_name note_id folder_id app_type local_file_path ;;
    if fetched then
      file_size <- st_size local_file_path ;;
      record_sync remote_identifier note_id update_time file_size local_file_path ;;
      bump_downloaded
    else bump_failed.

(** [depth] is the number of nested calls the interpreter still allows;
    CPython raises [RecursionError] beyond its recursion limit. *)
Fixpoint sync_folder_recursive (depth : nat) (app_type folder_name folder_id : string)
    (local_path : path) (path_stack : list string) : M unit :=
  match depth with
  | O => raise RecursionError
  | S depth' =>
      mkdir local_path ;;
      items <- list_folder app_type folder_name (Some folder_id) ;;
      for_each items (λ item,
        let item_name := or_default "Unknown" (fileName item) in
        let is_folder := or_default false (isFolder item) in
        let note_id := or_default "" (noteId item) in
        let update_time := or_default 0 (updateTime item) in
        if is_folder then
          bump_folders ;;
          sync_folder_recursive depth' app_type item_name note_id
            (path_div local_path item_name) (path_stack ++ [item_name])%list
        else sync_file app_type folder_id local_path item_name note_id update_time)
  end.

(** The body of the loop of [sync_all]. *)
Definition sync_root_item (include_all : bool) (root_item : entry) : M unit :=
  let root_name := or_default "Unknown" (fileName root_item) in
  let app_type := or_default "APP_PAPER" (appType root_item) in
  if negb include_all && negb (bool_decide (root_name ∈ default_folders))
  then ret tt
  else sync_folder_recursive (recursion_limit E) app_type root_name ""
         (path_div (local_dir E) root_name) [root_name].

Definition sync_all (include_all : bool) : M unit :=
  modify (set_stats (λ _, no_stats)) ;;
  root_items <- list_folder "root" "Home" (Some "") ;;
  for_each root_items (sync_root_item include_all).

(** The first loop of [sync_folder]: the [appType] of the first top-level
    entry with the wanted name. *)
Definition find_app_type (root_items : list entry) (root_name : string)
    : option string :=
  match List.find (λ item, bool_decide (fileName item = Some root_name)) root_items with
  | Some item => appType item
  | None => None
  end.

Definition find_folder (current_items : list entry) (folder_name : string)
    : option entry :=
  List.find (λ item, bool_decide (fileName item = Some folder_name)
                     && or_default false (isFolder item)) current_items.

(** The iterations [i > 0] of the second loop of [sync_folder], which carry
    [current_folder_id] and [current_items]; the result is [None] when a
    segment is not found (the [return] inside the loop). *)
Fixpoint navigate (app_type : string) (parts : list string)
    (current_folder_id : option string) (current_items : list entry)
    : M (option (option string * list entry)) :=
  match parts with
  | [] => ret (Some (current_folder_id, current_items))
  | folder_name :: rest =>
      match find_folder current_items folder_name with
      | Some item =>
          items <- list_folder app_type folder_name (noteId item) ;;
          navigate app_type rest (noteId item) items
      | None => ret None
      end
  end.

Definition sync_folder (folder_path : string) : M unit :=
  let parts := split_slash folder_path in
  match parts with
  | [] => ret tt
  | root_name :: rest =>
      modify (set_stats (λ _, no_stats)) ;;
      root_items <- list_folder "root" "Home" (Some "") ;;
      let app_type := find_app_type root_items root_name in
      if negb (truthy_str app_type) then ret tt else
      let app_type := or_default "" app_type in
      current_items <- list_folder app_type root_name (Some "") ;;
      reached <- navigate app_type rest None current_items ;;
      match reached with
      | None => ret tt
      | Some (current_folder_id, _) =>
          sync_folder_recursive (recursion_limit E) app_type
            (List.last parts "")
            (if truthy_str current_folder_id then or_default "" current_folder_id else "")
            (path_div (local_dir E) folder_path) parts
      end
  end.

End ViwoodsSync.

(** * Specification vocabulary *)

(** The request [list_folder] sends: [folderId] is passed only when it is a
    non-empty string. *)
Definition list_request (app_type folder_name : string) (folder_id : option string)
    : request :=
  GetChildFolderList app_type folder_name
    (if truthy_str folder_id then folder_id else None).

(** An answer with an envelope that is not a success: the transport failed,
    the body is not a JSON object, or the status or the result code is not
    200. *)
Definition answer_fault {A} (answer : http (json A)) : Prop :=
  match answer with
  | Unreachable => True
  | Reply status NotJson => True
  | Reply status NotObject => True
  | Reply status (Envelope code _) => status ≠ 200 ∨ code ≠ Some 200
  end.

(** The entries [list_folder] extracts from an answer. *)
Definition listed (answer : http (json (list entry))) : list entry :=
  match answer with
  | Reply status (Envelope code payload) =>
      if bool_decide (status = 200) && bool_decide (code = Some 200)
      then or_default [] payload else []
  | _ => []
  end.

(** A computation [keeps] a relation between the state it starts in and the
    state it ends in, whether it returns or raises. *)
Definition keeps {A} (R : relation world) (m : M A) : Prop :=
  ∀ w r w', m w = (r, w') → R w w'.

(** What the fetcher leaves alone: the ledger, the statistics, the clock. *)
Definition fetch_frame (w w' : world) : Prop :=
  ledger w' = ledger w ∧ stats w' = stats w ∧ clock w' = clock w.

(** What a listing leaves alone: everything but the list of requests. *)
Definition list_frame (w w' : world) : Prop :=
  fs w' = fs w ∧ ledger w' = ledger w ∧ stats w' = stats w ∧ clock w' = clock w.

(** The request of the resolve step of [download_file]. *)
Definition resolve_request (file_name note_id folder_id app_type : string) : request :=
  PackageFile app_type note_id (normalized_name file_name) folder_id.

(** The ways the resolve step fails: transport error, status other than
    200, body that is not a JSON object, result code other than 200, and a
    path that is missing, empty or not a string. *)
Inductive resolve_failure : http (json package_data) → Prop :=
| resolve_unreachable : resolve_failure Unreachable
| resolve_status status body : status ≠ 200 → resolve_failure (Reply status body)
| resolve_not_json status : resolve_failure (Reply status NotJson)
| resolve_not_object status : resolve_failure (Reply status NotObject)
| resolve_code status code payload :
    code ≠ Some 200 → resolve_failure (Reply status (Envelope code payload))
| resolve_no_path status code : resolve_failure (Reply status (Envelope code None))
| resolve_empty_path status code :
    resolve_failure (Reply status (Envelope code (Some (PathString ""))))
| resolve_not_string status code :
    resolve_failure (Reply status (Envelope code (Some NotString))).

(** The resolve step succeeds with a path. *)
Definition resolved (answer : http (json package_data)) (file_path : string) : Prop :=
  answer = Reply 200 (Envelope (Some 200) (Some (PathString file_path)))
  ∧ file_path ≠ "".

(** The transfer request fails before any byte is streamed. *)
Inductive transfer_refused : http stream → Prop :=
| transfer_unreachable : transfer_refused Unreachable
| transfer_status status body : status ≠ 200 → transfer_refused (Reply status body).

(** The transfer request is answered with status 200 and a stream that
    ends normally after zero bytes. *)
Definition empty_transfer (answer : http stream) : Prop :=
  ∃ body, answer = Reply 200 body ∧ broken body = false ∧ concat (chunks body) = [].

(** The destination of a fetch can be opened for writing: its parent
    directories exist or can be made, and it is not itself a directory. *)
Definition writable (t : gmap path node) (p : path) : Prop :=
  (mkdir_tree (parent p) t).1 = Ok tt ∧ lookup_node t p ≠ Some Dir.

(** The skip condition of the synchronizer, in the words of the
    specification: the ledger has a record for the remote path whose stored
    update time is at least the entry's, and the mirror file exists. *)
Definition up_to_date (w : world) (remote_path : string) (update_time : Z)
    (local_file : path) : bool :=
  match ledger w !! remote_path with
  | Some row => bool_decide (update_time ≤ row_update_time row)%Z
  | None => false
  end && path_exists (fs w) local_file.

Definition count_skipped (s : sync_stats) : sync_stats :=
  SyncStats (folders s) (downloaded s) (S (skipped s)) (failed s).
Definition count_failed (s : sync_stats) : sync_stats :=
  SyncStats (folders s) (downloaded s) (skipped s) (S (failed s)).
Definition count_downloaded (s : sync_stats) : sync_stats :=
  SyncStats (folders s) (S (downloaded s)) (skipped s) (failed s).
Definition count_folder (s : sync_stats) : sync_stats :=
  SyncStats (S (folders s)) (downloaded s) (skipped s) (failed s).

(** Requests are only ever added at the end of the list of requests. *)
Definition sent_grows (w w' : world) : Prop :=
  ∃ more, sent w' = (sent w ++ more)%list.

(** What the bookkeeping after a fetch leaves alone: the requests sent, the
    local files and the count of skipped files. *)
Definition tally_frame (w w' : world) : Prop :=
  sent w' = sent w ∧ fs w' = fs w ∧ skipped (stats w') = skipped (stats w).

(** * A small tablet for examples

    The root listing has the folders [Paper] and [Learning]; [Paper] holds
    one note, [ideas], last updated at time 100. *)

Definition paper_entry : entry :=
  Entry (Some "Paper") (Some true) (Some "P1") (Some 1) (Some "APP_PAPER").
Definition learning_entry : entry :=
  Entry (Some "Learning") (Some true) (Some "L1") (Some 1) (Some "APP_LEARNING").
Definition ideas_entry : entry :=
  Entry (Some "ideas") (Some false) (Some "N1") (Some 100) None.

Definition demo_listing (history : list request) (r : request)
    : http (json (list entry)) :=
  match r with
  | GetChildFolderList app_type folder_name folder_id =>
      if bool_decide (app_type = "root") then
        Reply 200 (Envelope (Some 200) (Some [paper_entry; learning_entry]))
      else if bool_decide (app_type = "APP_PAPER" ∧ folder_name = "Paper") then
        Reply 200 (Envelope (Some 200) (Some [ideas_entry]))
      else Reply 200 (Envelope (Some 200) (Some []))
  | _ => Unreachable
  end.

Definition demo_device (listing : list request → request → http (json (list entry)))
    (package : list request → request → http (json package_data))
    (download : list request → request → http stream) : device :=
  Device listing package download (λ _, "d41d8cd98f00b204e9800998ecf8427e")
    (λ _, "2025-01-01T12:00:00") 100 ["viwoods_sync"].

Definition resolves_ok (history : list request) (r : request)
    : http (json package_data) :=
  Reply 200 (Envelope (Some 200) (Some (PathString "/storage/notes/N1.note"))).

Definition sends_nothing (history : list request) (r : request) : http stream :=
  Reply 200 (Stream [[]] false).

Definition sends_bytes (history : list request) (r : request) : http stream :=
  Reply 200 (Stream [["n"; "o"]%byte; []; ["t"; "e"]%byte] false).

Definition server_error {B} (body : B) (history : list request) (r : request) : http B :=
  Reply 500 body.

Definition empty_world : world := World ∅ ∅ no_stats [] 0.

Definition ideas_path : path := ["ideas.note"; "Paper"; "viwoods_sync"].

(** A state after a successful sync of [ideas]. *)
Definition synced_world : world :=
  World (<[ideas_path := File ["n"; "o"; "t"; "e"]%byte]>
           (<[["Paper"; "viwoods_sync"] := Dir]> (<[["viwoods_sync"] := Dir]> ∅)))
        (<["APP_PAPER//N1/ideas.note" :=
             SyncRecord "N1" 100 4 "2025-01-01T12:00:00" "d41d8cd98f00b204e9800998ecf8427e"]> ∅)
        no_stats [] 1.

Definition is_list_request (r : request) : Prop :=
  match r with
  | GetChildFolderList _ _ _ => True
  | _ => False
  end.

(** Nothing happens but listings: the state is unchanged except for listing
    requests added to the requests sent. *)
Definition only_lists (w w' : world) : Prop :=
  list_frame w w'
  ∧ ∃ more, sent w' = (sent w ++ more)%list ∧ Forall is_list_request more.

(** The state [sync_all] and [sync_folder] traverse from: fresh statistics,
    and the root listing requested. *)
Definition root_request : request := list_request "root" "Home" (Some "").

Definition root_items (E : device) (w : world) : list entry :=
  listed (list_reply E (sent w) root_request).

Definition after_root_listing (w : world) : world :=
  log_request root_request (set_stats (λ _, no_stats) w).


(** * The traversal as a list of actions

    When the tablet answers a listing request the same way whatever it was
    asked before, the folders and files a traversal visits are a function
    of the tablet alone.  [folder_plan] is the sequence of steps
    [sync_folder_recursive] takes: make the directory, request the listing,
    and for each item either count a folder and descend, or handle a file. *)

Definition stable_listing (E : device) : Prop :=
  ∀ history r, list_reply E history r = list_reply E [] r.

Inductive action :=
| MakeDir (local_path : path)
| Listing (r : request)
| CountFolder
| SyncFile (app_type folder_id : string) (local_path : path)
    (item_name note_id : string) (update_time : Z)
| TooDeep.

Definition run_action (E : device) (a : action) : M unit :=
  match a with
  | MakeDir local_path => mkdir local_path
  | Listing r => modify (log_request r)
  | CountFolder => bump_folders
  | SyncFile app_type folder_id local_path item_name note_id update_time =>
      sync_file E app_type folder_id local_path item_name note_id update_time
  | TooDeep => raise RecursionError
  end.

Definition run_plan (E : device) (plan : list action) : M unit :=
  for_each plan (run_action E).

Fixpoint folder_plan (E : device) (depth : nat) (app_type folder_name folder_id : string)
    (local_path : path) : list action :=
  match depth with
  | O => [TooDeep]
  | S depth' =>
      MakeDir local_path
      :: Listing (list_request app_type folder_name (Some folder_id))
      :: flat_map
           (λ item,
              let item_name := or_default "Unknown" (fileName item) in
              let note_id := or_default "" (noteId item) in
              if or_default false (isFolder item) then
                CountFolder
                :: folder_plan E depth' app_type item_name note_id
                     (path_div local_path item_name)
              else
                [SyncFile app_type folder_id local_path item_name note_id
                   (or_default 0 (updateTime item))])
           (listed (list_reply E [] (list_request app_type folder_name (Some folder_id))))
  end.

Definition root_plan (E : device) (include_all : bool) (root_item : entry) : list action :=
  let root_name := or_default "Unknown" (fileName root_item) in
  let app_type := or_default "APP_PAPER" (appType root_item) in
  if negb include_all && negb (bool_decide (root_name ∈ default_folders)) then []
  else folder_plan E (recursion_limit E) app_type root_name ""
         (path_div (local_dir E) root_name).

(** The steps of [sync_all] after it has reset the statistics. *)
Definition full_plan (E : device) (include_all : bool) : list action :=
  Listing root_request
  :: flat_map (root_plan E include_all) (listed (list_reply E [] root_request)).

(** The file entries of a plan: remote path, update time, mirror path. *)
Definition target (a : action) : option (string * Z * path) :=
  match a with
  | SyncFile app_type folder_id local_path item_name note_id update_time =>
      let file_name := normalized_name item_name in
      Some (remote_identifier app_type folder_id note_id file_name, update_time,
            path_div local_path file_name)
  | _ => None
  end.

Definition targets (plan : list action) : list (string * Z * path) :=
  omap target plan.

(** The remote path identifies the mirror file: two file entries of the
    plan with the same remote path have the same mirror path. *)
Definition identified (plan : list action) : Prop :=
  ∀ t t', t ∈ targets plan → t' ∈ targets plan → t.1.1 = t'.1.1 → t.2 = t'.2.

(** A file entry is settled in a state when the synchronizer would skip it. *)
Definition settled (w : world) (t : string * Z * path) : Prop :=
  up_to_date w t.1.1 t.1.2 t.2 = true.

(** Directories stay directories and existing paths stay in existence. *)
Definition fs_grows (w w' : world) : Prop :=
  ∀ p, (lookup_node (fs w) p = Some Dir → lookup_node (fs w') p = Some Dir)
       ∧ (is_Some (lookup_node (fs w) p) → is_Some (lookup_node (fs w') p)).

(** Directories stay directories. *)
Definition dirs_kept (w w' : world) : Prop :=
  ∀ p, lookup_node (fs w) p = Some Dir → lookup_node (fs w') p = Some Dir.

(** The failed counter never goes down. *)
Definition failed_grows (w w' : world) : Prop :=
  (failed (stats w) ≤ failed (stats w'))%nat.

(** [yields R φ m]: when [m] returns a value satisfying [φ], the states
    before and after are related by [R]. *)
Definition yields {A} (R : relation world) (φ : A → Prop) (m : M A) : Prop :=
  ∀ w a w', m w = (Ok a, w') → φ a → R w w'.

(** [ensures Q m]: what [m] returns and the state it returns in satisfy [Q]. *)
Definition ensures {A} (Q : A → world → Prop) (m : M A) : Prop :=
  ∀ w a w', m w = (Ok a, w') → Q a w'.

(** What a traversal in which every file is a skip does to the statistics
    and to the requests sent. *)
Fixpoint tally (plan : list action) (s : sync_stats) : sync_stats :=
  match plan with
  | [] => s
  | CountFolder :: rest => tally rest (count_folder s)
  | SyncFile _ _ _ _ _ _ :: rest => tally rest (count_skipped s)
  | _ :: rest => tally rest s
  end.

Fixpoint listings (plan : list action) : list request :=
  match plan with
  | [] => []
  | Listing r :: rest => r :: listings rest
  | _ :: rest => listings rest
  end.

Definition handled (s : sync_stats) : nat :=
  (skipped s + downloaded s + failed s)%nat.

(** A tablet whose first resolve request fails and whose later ones succeed. *)
Definition asked_before (history : list request) : bool :=
  existsb (λ r, match r with PackageFile _ _ _ _ => true | _ => false end) history.

Definition resolves_second_time (history : list request) (r : request)
    : http (json package_data) :=
  if asked_before history then resolves_ok history r else Reply 503 NotJson.

Definition flaky_device : device :=
  demo_device demo_listing resolves_second_time sends_bytes.

Definition steady_device : device :=
  demo_device demo_listing resolves_ok sends_bytes.

(** A tablet on which two notes in different folders have the same
    composite remote path: the folder [Sub] of [Paper] reports no note id,
    so its folder id is empty like that of [Paper] itself, and both folders
    hold a note [ideas] with note id [N1], updated at different times. *)
Definition recent_ideas_entry : entry :=
  Entry (Some "ideas") (Some false) (Some "N1") (Some 200) None.
Definition sub_entry : entry :=
  Entry (Some "Sub") (Some true) None (Some 1) None.

Definition twin_listing (history : list request) (r : request)
    : http (json (list entry)) :=
  match r with
  | GetChildFolderList app_type folder_name folder_id =>
      if bool_decide (app_type = "root") then
        Reply 200 (Envelope (Some 200) (Some [paper_entry]))
      else if bool_decide (folder_name = "Paper") then
        Reply 200 (Envelope (Some 200) (Some [recent_ideas_entry; sub_entry]))
      else if bool_decide (folder_name = "Sub") then
        Reply 200 (Envelope (Some 200) (Some [ideas_entry]))
      else Reply 200 (Envelope (Some 200) (Some []))
  | _ => Unreachable
  end.

Definition twin_device : device :=
  demo_device twin_listing resolves_ok sends_bytes.

Definition unreachable {B} (history : list request) (r : request) : http B :=
  Unreachable.

(** The listing requests of the navigation of [sync_folder], and where the
    navigation leads, on a tablet with stable listings. *)
Fixpoint nav_plan (E : device) (app_type : string) (parts : list string)
    (current_folder_id : option string) (current_items : list entry)
    : list request * option (option string * list entry) :=
  match parts with
  | [] => ([], Some (current_folder_id, current_items))
  | folder_name :: rest =>
      match find_folder current_items folder_name with
      | Some item =>
          let r := list_request app_type folder_name (noteId item) in
          let next := nav_plan E app_type rest (noteId item) (listed (list_reply E [] r)) in
          (r :: next.1, next.2)
      | None => ([], None)
      end
  end.

(** The steps of [sync_folder] after it has reset the statistics. *)
Definition scoped_plan (E : device) (folder_path : string) : list action :=
  match split_slash folder_path with
  | [] => []
  | root_name :: rest =>
      Listing root_request
      :: match find_app_type (listed (list_reply E [] root_request)) root_name with
         | Some app_type =>
             if bool_decide (app_type = "") then [] else
             let first_request := list_request app_type root_name (Some "") in
             let nav :=
               nav_plan E app_type rest None (listed (list_reply E [] first_request)) in
             (Listing first_request :: map Listing nav.1
              ++ match nav.2 with
                 | Some (current_folder_id, _) =>
                     folder_plan E (recursion_limit E) app_type
                       (List.last (root_name :: rest) "")
                       (if truthy_str current_folder_id
                        then or_default "" current_folder_id else "")
                       (path_div (local_dir E) folder_path)
                 | None => []
                 end)%list
         | None => []
         end
  end.

(** What the amended idempotence claim says of a second run [run] started
    in the state [w1] that the first run left. *)
Definition second_run_skips_all (run : M unit) (w1 : world) : Prop :=
  ∃ w2, run w1 = (Ok tt, w2)
        ∧ downloaded (stats w2) = 0%nat
        ∧ failed (stats w2) = 0%nat
        ∧ skipped (stats w2) = (skipped (stats w1) + downloaded (stats w1))%nat
        ∧ folders (stats w2) = folders (stats w1)
        ∧ fs w2 = fs w1
        ∧ ledger w2 = ledger w1
        ∧ ∃ lists, sent w2 = (sent w1 ++ lists)%list ∧ Forall is_list_request lists.

(** * The constructor and the command line

    The SQLite file is not a node of [fs]: the [ledger] component stands
    for the table it holds.  Creating the table when it does not exist
    keeps the rows; unlinking the file discards them. *)

(** [Path.mkdir(exist_ok=True)], without [parents]. *)
Definition mkdir_single (p : path) : M unit :=
  λ w, match lookup_node (fs w) p with
       | Some Dir => (Ok tt, w)
       | Some (File _) => (Raise FileExistsError, w)
       | None =>
           match lookup_node (fs w) (parent p) with
           | Some Dir => (Ok tt, set_fs (insert p Dir) w)
           | Some (File _) => (Raise NotADirectoryError, w)
           | None => (Raise FileNotFoundError, w)
           end
       end.

(** [CREATE TABLE IF NOT EXISTS synced_files ...] *)
Definition init_database : M unit := ret tt.

(** [ViwoodsSync.__init__] *)
Definition construct (E : device) : M unit :=
  mkdir_single (local_dir E) ;;
  init_database.

(** [syncer.db_path.unlink(missing_ok=True)] *)
Definition unlink_database : M unit :=
  modify (set_ledger (λ _, ∅)).

(** The parsed command line, without the address and the output directory,
    which the [device] holds. *)
Record arguments := Arguments {
  arg_folder : option string;
  arg_all : bool;
  arg_force : bool
}.

Definition main (E : device) (args : arguments) : M unit :=
  construct E ;;
  (if arg_force args then unlink_database ;; init_database else ret tt) ;;
  if truthy_str (arg_folder args)
  then sync_folder E (or_default "" (arg_folder args))
  else sync_all E (arg_all args).

(** * Vocabulary of the further properties *)



(** Nothing is taken away: ledger rows stay (possibly replaced),
    directories stay directories, requests stay sent. *)
Definition nothing_lost (w w' : world) : Prop :=
  (∀ remote_path, is_Some (ledger w !! remote_path) → is_Some (ledger w' !! remote_path))
  ∧ dirs_kept w w'
  ∧ sent_grows w w'.

(** The ledger changes at one remote path at most. *)
Definition ledger_but (remote_path : string) (w w' : world) : Prop :=
  ∀ other, other ≠ remote_path → ledger w' !! other = ledger w !! other.

Definition skipped_same (w w' : world) : Prop :=
  skipped (stats w') = skipped (stats w).

(** The number of sub-folders a plan enters. *)
Fixpoint folder_steps (plan : list action) : nat :=
  match plan with
  | [] => 0
  | CountFolder :: rest => S (folder_steps rest)
  | _ :: rest => folder_steps rest
  end.

(** The remote paths of the file entries of a plan. *)
Definition remote_paths (plan : list action) : list string :=
  (λ t, t.1.1) <$> targets plan.

Definition resolves_then_breaks (history : list request) (r : request) : http stream :=
  Reply 200 (Stream [["n"; "o"]%byte] true).

Definition sent_same (w w' : world) : Prop := sent w' = sent w.

(** A state in which a file stands where the directory of [Paper] goes. *)
Definition blocked_world : world :=
  World (<[["Paper"; "viwoods_sync"] := File []]> (<[["viwoods_sync"] := Dir]> ∅))
        ∅ no_stats [] 0.

(** A tablet whose root listing has an entry [Paper] without container type
    before the entry [Paper] that has one. *)
Definition untyped_paper_entry : entry :=
  Entry (Some "Paper") (Some true) (Some "P0") (Some 1) None.

Definition untyped_listing (history : list request) (r : request)
    : http (json (list entry)) :=
  match r with
  | GetChildFolderList app_type folder_name folder_id =>
      if bool_decide (app_type = "root") then
        Reply 200 (Envelope (Some 200) (Some [learning_entry; untyped_paper_entry; paper_entry]))
      else demo_listing history r
  | _ => Unreachable
  end.

Definition untyped_device : device :=
  demo_device untyped_listing resolves_ok sends_bytes.

(** The plan of the sync that [main] starts. *)
Definition plan_of (E : device) (args : arguments) : list action :=
  if truthy_str (arg_folder args)
  then scoped_plan E (or_default "" (arg_folder args))
  else full_plan E (arg_all args).

(** The example tablet with an output directory below a directory that
    does not exist. *)
Definition nested_device : device :=
  Device demo_listing resolves_ok sends_bytes (λ _, "d41d8cd98f00b204e9800998ecf8427e")
    (λ _, "2025-01-01T12:00:00") 100 ["viwoods_sync"; "backups"].

(** The local files change at one path at most, apart from directories
    made where nothing was. *)
Definition only_writes (p : path) (w w' : world) : Prop :=
  ∀ q, q ≠ p →
       fs w' !! q = fs w !! q ∨ (fs w !! q = None ∧ fs w' !! q = Some Dir).

(** * Properties *)

(** ** Frame rules *)

Section keeps_rules.
Context (R : relation world) `{!PreOrder R}.

Lemma keeps_ret {A} (a : A) : keeps R (ret a).
Proof. intros w r w' [= <- <-]. reflexivity. Qed.

Lemma keeps_raise {A} e : keeps R (raise (A:=A) e).
Proof. intros w r w' [= <- <-]. reflexivity. Qed.

Lemma keeps_gets {A} (f : world → A) : keeps R (gets f).
Proof. intros w r w' [= <- <-]. reflexivity. Qed.

Lemma keeps_modify f : (∀ w, R w (f w)) → keeps R (modify f).
Proof. intros Hf w r w' [= <- <-]. apply Hf. Qed.

Lemma keeps_bind {A B} (m : M A) (k : A → M B) :
  keeps R m → (∀ a, keeps R (k a)) → keeps R (bind m k).
Proof.
  intros Hm Hk w r w'. unfold bind.
  destruct (m w) as [[a|e] w1] eqn:Hw.
  - intros Hr. transitivity w1; [by eapply Hm | by eapply Hk].
  - intros [= <- <-]. by eapply Hm.
Qed.

Lemma keeps_try {A} (m : M A) (h : exn → M A) :
  keeps R m → (∀ e, keeps R (h e)) → keeps R (try_except m h).
Proof.
  intros Hm Hh w r w'. unfold try_except.
  destruct (m w) as [[a|e] w1] eqn:Hw.
  - intros [= <- <-]. by eapply Hm.
  - intros Hr. transitivity w1; [by eapply Hm | by eapply Hh].
Qed.

Lemma keeps_for_each {A} (l : list A) (body : A → M unit) :
  (∀ x, keeps R (body x)) → keeps R (for_each l body).
Proof.
  intros Hbody. induction l as [|x l IH]; simpl.
  - apply keeps_ret.
  - apply keeps_bind; [apply Hbody | intros _; apply IH].
Qed.
End keeps_rules.

#[local] Instance fetch_frame_preorder : PreOrder fetch_frame.
Proof.
  split; [done|].
  intros w1 w2 w3 (?&?&?) (?&?&?). unfold fetch_frame. split_and!; congruence.
Qed.

#[local] Instance list_frame_preorder : PreOrder list_frame.
Proof.
  split; [done|].
  intros w1 w2 w3 (?&?&?&?) (?&?&?&?). unfold list_frame. split_and!; congruence.
Qed.

(** ** The directory listing *)

Lemma list_folder_unfold E app_type folder_name folder_id w :
  list_folder E app_type folder_name folder_id w =
  (Ok (listed (list_reply E (sent w) (list_request app_type folder_name folder_id))),
   log_request (list_request app_type folder_name folder_id) w).
Proof.
  unfold list_folder, try_except, bind, session_get, list_request, listed.
  destruct (list_reply E _ _) as [|status body]; simpl; [done|].
  destruct body as [| |code payload]; repeat (case_bool_decide; simpl); done.
Qed.

Lemma listed_fault answer : answer_fault answer → listed answer = [].
Proof.
  destruct answer as [|status [| |code payload]]; simpl; try done.
  intros [?|?]; repeat (case_bool_decide; simpl); done.
Qed.



Lemma list_folder_keeps E app_type folder_name folder_id :
  keeps list_frame (list_folder E app_type folder_name folder_id).
Proof. intros w r w'. rewrite list_folder_unfold. by intros [= <- <-]. Qed.

(** ** Frames of the methods *)

#[local] Instance sent_grows_preorder : PreOrder sent_grows.
Proof.
  split.
  - intros w. exists []. by rewrite app_nil_r.
  - intros w1 w2 w3 [m1 H1] [m2 H2]. exists (m1 ++ m2)%list.
    by rewrite H2, H1, app_assoc.
Qed.

#[local] Instance tally_frame_preorder : PreOrder tally_frame.
Proof.
  split; [done|].
  intros w1 w2 w3 (?&?&?) (?&?&?). unfold tally_frame. split_and!; congruence.
Qed.

Lemma sent_grows_log r w : sent_grows w (log_request r w).
Proof. by exists [r]. Qed.

(** Splits a frame goal along the structure of the computation. *)
Ltac keeps_struct :=
  repeat match goal with
    | |- keeps _ (bind _ _) => apply keeps_bind; [apply _| |intros ?]
    | |- keeps _ (ret _) => apply keeps_ret; apply _
    | |- keeps _ (raise _) => apply keeps_raise; apply _
    | |- keeps _ (gets _) => apply keeps_gets; apply _
    | |- keeps _ (try_except _ _) => apply keeps_try; [apply _| |intros ?]
    | |- keeps _ (for_each _ _) => apply keeps_for_each; [apply _|intros ?]
    | |- keeps _ (if ?b then _ else _) => destruct b
    | |- keeps _ (match ?x with _ => _ end) => destruct x
    end.

(** Closes a frame goal about one primitive by running it. *)
Ltac keeps_prim :=
  let w := fresh "w" in let r := fresh "r" in let w' := fresh "w'" in
  let H := fresh "H" in
  intros w r w' H;
  unfold bump_folders, bump_downloaded, bump_skipped, bump_failed,
    insert_or_replace in H;
  unfold session_get, response_json, get_code, get_data, mkdir, open_wb, write,
    st_size, unlink, read_file, datetime_now, modify, raise, ret in H;
  repeat case_match; simplify_eq;
  first [ done | apply sent_grows_log | reflexivity
        | by (exists []; simpl; rewrite app_nil_r)
        | by (unfold failed_grows; simpl; lia) ].

Ltac keeps_auto := keeps_struct; try keeps_prim.

(** Reading an answer or a size changes nothing. *)
Section pure_steps.
Context (R : relation world) `{!PreOrder R}.

Lemma response_json_keeps {A} (body : json A) : keeps R (response_json body).
Proof. keeps_prim. Qed.

Lemma get_code_keeps {A} (data : json A) : keeps R (get_code data).
Proof. keeps_prim. Qed.

Lemma get_data_keeps {A} (data : json A) : keeps R (get_data data).
Proof. keeps_prim. Qed.

Lemma st_size_keeps p : keeps R (st_size p).
Proof. keeps_prim. Qed.
End pure_steps.

Lemma mkdir_fetch_frame p : keeps fetch_frame (mkdir p).
Proof. keeps_prim. Qed.

Lemma write_stream_fetch_frame p s : keeps fetch_frame (write_stream p s).
Proof. unfold write_stream. keeps_auto. Qed.

Lemma download_attempt_fetch_frame E file_name note_id folder_id app_type local_path :
  keeps fetch_frame (download_attempt E file_name note_id folder_id app_type local_path).
Proof. unfold download_attempt, write_stream. keeps_auto. Qed.

Lemma download_file_fetch_frame E file_name note_id folder_id app_type local_path :
  keeps fetch_frame (download_file E file_name note_id folder_id app_type local_path).
Proof. unfold download_file, download_attempt, write_stream. keeps_auto. Qed.

Lemma download_file_sent_grows E file_name note_id folder_id app_type local_path :
  keeps sent_grows (download_file E file_name note_id folder_id app_type local_path).
Proof. unfold download_file, download_attempt, write_stream. keeps_auto. Qed.

Lemma record_sync_tally_frame E remote_path note_id update_time file_size local_path :
  keeps tally_frame (record_sync E remote_path note_id update_time file_size local_path).
Proof. unfold record_sync, calculate_checksum. keeps_auto. Qed.

Lemma download_file_returns E file_name note_id folder_id app_type local_path w :
  ∃ fetched w',
    download_file E file_name note_id folder_id app_type local_path w = (Ok fetched, w').
Proof.
  unfold download_file, try_except.
  destruct (download_attempt _ _ _ _ _ _ _) as [[fetched|e] w']; eauto.
Qed.

(** C6: whatever the suite of the [try] statement of [download_file] raises
    (in the resolve step, the transfer step or the local write), the
    fetcher returns [False] in the state reached; [download_file] returns a
    boolean in every state and never raises. *)
Theorem download_file_catches_everything E file_name note_id folder_id app_type
    local_path w :
  (∀ e w', download_attempt E (normalized_name file_name) note_id folder_id app_type
             local_path w = (Raise e, w') →
           download_file E file_name note_id folder_id app_type local_path w
           = (Ok false, w'))
  ∧ (∃ fetched w',
       download_file E file_name note_id folder_id app_type local_path w
       = (Ok fetched, w')).
Proof.
  split; [|apply download_file_returns].
  intros e w' Hraise. unfold download_file, try_except.
  fold (normalized_name file_name). by rewrite Hraise.
Qed.

(** *** The local file system *)

Lemma lookup_node_cons t c p : lookup_node t (c :: p) = t !! (c :: p).
Proof. done. Qed.

Lemma mkdir_tree_dir p t : lookup_node t p = Some Dir → mkdir_tree p t = (Ok tt, t).
Proof. intros H. destruct p; simpl in *; [done|]. by rewrite H. Qed.

Lemma mkdir_tree_ok p t t' : mkdir_tree p t = (Ok tt, t') → lookup_node t' p = Some Dir.
Proof.
  destruct p as [|c up]; [done|]. simpl.
  destruct (t !! (c :: up)) as [[content|]|] eqn:Hp; [done|by intros [= <-]|].
  destruct (lookup_node t up) as [[content|]|]; [done| |].
  - intros [= <-]. apply lookup_insert_eq.
  - destruct (mkdir_tree up t) as [[[]|e] t1]; [|done].
    intros [= <-]. apply lookup_insert_eq.
Qed.

(** [mkdir] only adds directories at paths that did not exist. *)
Lemma mkdir_tree_grows p t r t' q :
  mkdir_tree p t = (r, t') →
  t' !! q = t !! q ∨ (t !! q = None ∧ t' !! q = Some Dir).
Proof.
  revert r t'. induction p as [|c up IH]; intros r t'; [simpl; intros [= <- <-]; by left|].
  simpl. destruct (t !! (c :: up)) as [[content|]|] eqn:Hp;
    [intros [= <- <-]; by left..|].
  destruct (lookup_node t up) as [[content|]|];
    [intros [= <- <-]; by left| |].
  - intros [= <- <-]. destruct (decide (q = c :: up)) as [->|Hne].
    + right. by rewrite lookup_insert_eq.
    + left. by rewrite lookup_insert_ne.
  - destruct (mkdir_tree up t) as [[[]|e] t1] eqn:Hup.
    + intros [= <- <-]. destruct (IH _ _ eq_refl) as [Hsame|[Hnone Hdir]].
      * destruct (decide (q = c :: up)) as [->|Hne].
        -- right. rewrite lookup_insert_eq. by rewrite <- Hp.
        -- left. by rewrite lookup_insert_ne.
      * right. split; [done|].
        destruct (decide (q = c :: up)) as [->|Hne];
          [by rewrite lookup_insert_eq | by rewrite lookup_insert_ne].
    + intros [= <- <-]. by eapply IH.
Qed.

Lemma mkdir_tree_keeps_node p t r t' q n :
  mkdir_tree p t = (r, t') → t !! q = Some n → t' !! q = Some n.
Proof.
  intros Hmk Hq. destruct (mkdir_tree_grows p t r t' q Hmk) as [->|[? _]]; congruence.
Qed.

Lemma write_stream_empty p body w :
  broken body = false → concat (chunks body) = [] → write_stream p body w = (Ok tt, w).
Proof.
  unfold write_stream. intros -> Hempty.
  assert (for_each (chunks body)
            (λ chunk, match chunk with [] => ret tt | _ => write p chunk end) w
          = (Ok tt, w)) as Hloop.
  { induction (chunks body) as [|chunk l IH]; [done|].
    simpl in Hempty. apply app_eq_nil in Hempty as [-> Hl].
    simpl. unfold bind at 1. simpl. by apply IH. }
  unfold bind. by rewrite Hloop.
Qed.

(** *** Running the fetcher *)

Lemma bind_ret_l {A B} (a : A) (k : A → M B) w : bind (ret a) k w = k a w.
Proof. done. Qed.

Lemma download_attempt_resolve_failure E file_name note_id folder_id app_type
    local_path w :
  let req := PackageFile app_type note_id file_name folder_id in
  resolve_failure (package_reply E (sent w) req) →
  ∃ r, download_attempt E file_name note_id folder_id app_type local_path w
       = (r, log_request req w) ∧ r ≠ Ok true.
Proof.
  intros req Hfail. unfold download_attempt, bind, session_get. fold req.
  destruct Hfail; simpl; eauto;
    (case_bool_decide; simpl; [|by eauto]); try done;
    repeat (case_bool_decide; simpl); by eauto.
Qed.

Lemma download_attempt_resolved E file_name note_id folder_id app_type local_path
    w file_path :
  let req := PackageFile app_type note_id file_name folder_id in
  resolved (package_reply E (sent w) req) file_path →
  download_attempt E file_name note_id folder_id app_type local_path w =
  (response <- session_get (download_reply E) (Download file_path) ;;
   if negb (bool_decide (response.1 = 200)) then ret false else
   mkdir (parent local_path) ;;
   open_wb local_path ;;
   write_stream local_path response.2 ;;
   size <- st_size local_path ;;
   if bool_decide (size = 0%nat) then unlink local_path ;; ret false else ret true)
  (log_request req w).
Proof.
  intros req [Hreply Hpath]. unfold download_attempt. fold req.
  unfold bind at 1. unfold session_get at 1. rewrite Hreply. simpl.
  rewrite bind_ret_l. simpl. rewrite bind_ret_l. simpl. rewrite bind_ret_l.
  by rewrite bool_decide_eq_false_2.
Qed.

Lemma download_attempt_transfer_refused E file_name note_id folder_id app_type
    local_path w file_path :
  let req := PackageFile app_type note_id file_name folder_id in
  resolved (package_reply E (sent w) req) file_path →
  transfer_refused (download_reply E (sent w ++ [req]) (Download file_path)) →
  ∃ r, download_attempt E file_name note_id folder_id app_type local_path w
       = (r, log_request (Download file_path) (log_request req w)) ∧ r ≠ Ok true.
Proof.
  intros req Hres Hrefused. rewrite (download_attempt_resolved _ _ _ _ _ _ _ _ Hres).
  unfold bind, session_get. simpl. fold req.
  destruct Hrefused; simpl; [by eauto|].
  rewrite bool_decide_eq_false_2 by done. simpl. by eauto.
Qed.

Lemma download_file_of_attempt E file_name note_id folder_id app_type local_path w r w' :
  download_attempt E (normalized_name file_name) note_id folder_id app_type local_path w
  = (r, w') →
  r ≠ Ok true →
  download_file E file_name note_id folder_id app_type local_path w = (Ok false, w').
Proof.
  intros Hrun Hr. unfold download_file, try_except. fold (normalized_name file_name).
  rewrite Hrun. by destruct r as [[]|e].
Qed.

(** C10: when the resolve step fails (transport error, status or result
    code other than 200, malformed body, missing, empty or non-string
    path) or the transfer request is refused (transport error or status
    other than 200), [download_file] returns [False] and the local file
    system is exactly what it was: no directory made, no byte written. *)
Theorem download_failure_leaves_fs_untouched E file_name note_id folder_id app_type
    local_path w :
  let req := resolve_request file_name note_id folder_id app_type in
  let answer := package_reply E (sent w) req in
  resolve_failure answer
  ∨ (∃ file_path, resolved answer file_path
       ∧ transfer_refused (download_reply E (sent w ++ [req]) (Download file_path))) →
  ∃ w', download_file E file_name note_id folder_id app_type local_path w = (Ok false, w')
        ∧ fs w' = fs w.
Proof.
  intros req answer [Hfail|(file_path & Hres & Hrefused)].
  - destruct (download_attempt_resolve_failure E _ note_id folder_id app_type
                local_path w Hfail) as (r & Hrun & Hr).
    eexists. split; [by eapply download_file_of_attempt|done].
  - destruct (download_attempt_transfer_refused E _ note_id folder_id app_type
                local_path w file_path Hres Hrefused) as (r & Hrun & Hr).
    eexists. split; [by eapply download_file_of_attempt|done].
Qed.
Lemma mkdir_tree_reach p t r t' q :
  mkdir_tree p t = (r, t') → t' !! q = t !! q ∨ (length q ≤ length p)%nat.
Proof.
  revert r t'. induction p as [|c up IH]; intros r t'; [simpl; intros [= <- <-]; by left|].
  simpl. destruct (t !! (c :: up)) as [[content|]|] eqn:Hp;
    [intros [= <- <-]; by left..|].
  destruct (lookup_node t up) as [[content|]|];
    [intros [= <- <-]; by left| |].
  - intros [= <- <-]. destruct (decide (q = c :: up)) as [->|Hne].
    + by right.
    + left. by rewrite lookup_insert_ne.
  - destruct (mkdir_tree up t) as [[[]|e] t1] eqn:Hup.
    + intros [= <- <-]. destruct (decide (q = c :: up)) as [->|Hne]; [by right|].
      rewrite lookup_insert_ne by done.
      destruct (IH _ _ eq_refl) as [?|?]; [by left|right; lia].
    + intros [= <- <-]. destruct (IH _ _ eq_refl) as [?|?]; [by left|right; lia].
Qed.

Lemma mkdir_tree_below c p t r t' :
  mkdir_tree p t = (r, t') → lookup_node t' (c :: p) = lookup_node t (c :: p).
Proof.
  intros Hmk. simpl.
  destruct (mkdir_tree_reach p t r t' (c :: p) Hmk) as [?|Hlen]; [done|].
  simpl in Hlen. lia.
Qed.

Lemma download_attempt_empty E file_name note_id folder_id app_type local_path
    w file_path t1 :
  let req := PackageFile app_type note_id file_name folder_id in
  resolved (package_reply E (sent w) req) file_path →
  empty_transfer (download_reply E (sent w ++ [req]) (Download file_path)) →
  mkdir_tree (parent local_path) (fs w) = (Ok tt, t1) →
  lookup_node t1 local_path ≠ Some Dir →
  download_attempt E file_name note_id folder_id app_type local_path w =
  (Ok false,
   World (delete local_path t1) (ledger w) (stats w)
     (sent w ++ [req; Download file_path]) (clock w)).
Proof.
  intros req Hres (body & Hreply & Hbroken & Hempty) Hmk Hdest.
  rewrite (download_attempt_resolved _ _ _ _ _ _ _ _ Hres). fold req.
  unfold bind at 1. unfold session_get. simpl. rewrite Hreply. simpl.
  unfold bind at 1. unfold mkdir. simpl. rewrite Hmk.
  destruct local_path as [|c up]; [done|]. simpl in Hmk, Hdest.
  unfold bind at 1. unfold open_wb. simpl.
  pose proof (mkdir_tree_ok _ _ _ Hmk) as Hup.
  destruct (t1 !! (c :: up)) as [[content|]|] eqn:Hold; [|done|];
    rewrite Hup; unfold bind at 1; rewrite write_stream_empty by done;
    unfold bind, st_size, unlink; simpl; rewrite lookup_insert_eq; simpl;
    rewrite lookup_insert_eq; unfold ret, set_fs; simpl;
    rewrite delete_insert_eq, <- app_assoc; done.
Qed.

(** ** One file of a listing *)

Lemma is_file_synced_unfold remote_path update_time w :
  is_file_synced remote_path update_time w =
  (Ok match ledger w !! remote_path with
      | Some row => bool_decide (update_time ≤ row_update_time row)%Z
      | None => false
      end, w).
Proof.
  unfold is_file_synced, bind, gets. by destruct (ledger w !! remote_path).
Qed.

(** The two branches of the decision. *)
Lemma sync_file_unfold E app_type folder_id local_path item_name note_id update_time w :
  let file_name := normalized_name item_name in
  let local_file_path := path_div local_path file_name in
  let remote_path := remote_identifier app_type folder_id note_id file_name in
  sync_file E app_type folder_id local_path item_name note_id update_time w =
  if up_to_date w remote_path update_time local_file_path
  then (Ok tt, set_stats count_skipped w)
  else (fetched <- download_file E item_name note_id folder_id app_type local_file_path ;;
        if fetched then
          file_size <- st_size local_file_path ;;
          record_sync E remote_path note_id update_time file_size local_file_path ;;
          bump_downloaded
        else bump_failed) w.
Proof.
  intros file_name local_file_path remote_path.
  unfold sync_file. fold file_name. fold local_file_path. fold remote_path.
  unfold bind at 1. rewrite is_file_synced_unfold.
  unfold bind at 1. unfold gets at 1. unfold up_to_date.
  by destruct (_ && _).
Qed.

Lemma sync_file_fetch_failed E app_type folder_id local_path item_name note_id
    update_time w w' :
  let file_name := normalized_name item_name in
  let local_file_path := path_div local_path file_name in
  let remote_path := remote_identifier app_type folder_id note_id file_name in
  up_to_date w remote_path update_time local_file_path = false →
  download_file E item_name note_id folder_id app_type local_file_path w = (Ok false, w') →
  sync_file E app_type folder_id local_path item_name note_id update_time w
  = (Ok tt, set_stats count_failed w').
Proof.
  intros file_name local_file_path remote_path Hfetch Hfail.
  rewrite sync_file_unfold. fold file_name local_file_path remote_path.
  rewrite Hfetch. unfold bind. by rewrite Hfail.
Qed.

Lemma up_to_date_spec w remote_path update_time local_file :
  up_to_date w remote_path update_time local_file = true ↔
  (∃ row, ledger w !! remote_path = Some row ∧ (update_time ≤ row_update_time row)%Z)
  ∧ path_exists (fs w) local_file = true.
Proof.
  unfold up_to_date. rewrite andb_true_iff.
  destruct (ledger w !! remote_path) as [row|].
  - rewrite bool_decide_eq_true. split.
    + intros [? ?]. eauto.
    + intros [(row' & [= <-] & ?) ?]. done.
  - split; [by intros [? ?] | by intros [(row' & ? & ?) ?]].
Qed.

Lemma session_get_then_sent {A B} reply req (k : Z * A → M B) w r w' :
  (∀ a, keeps sent_grows (k a)) →
  bind (session_get reply req) k w = (r, w') →
  ∃ more, sent w' = (sent w ++ req :: more)%list.
Proof.
  intros Hk. unfold bind, session_get.
  destruct (reply (sent w) req) as [|status body].
  - intros [= <- <-]. by exists [].
  - intros Hrun. apply Hk in Hrun as [more Hmore]. exists more.
    rewrite Hmore. simpl. by rewrite <- app_assoc.
Qed.

Lemma download_file_sends_resolve E file_name note_id folder_id app_type local_path
    w r w' :
  download_file E file_name note_id folder_id app_type local_path w = (r, w') →
  ∃ more, sent w' =
    (sent w ++ resolve_request file_name note_id folder_id app_type :: more)%list.
Proof.
  unfold download_file, try_except. fold (normalized_name file_name).
  destruct (download_attempt _ _ _ _ _ _ w) as [r1 w1] eqn:Hrun.
  intros Hr. assert (w' = w1) as -> by (by destruct r1; unfold ret in Hr; simplify_eq).
  revert Hrun. unfold download_attempt. apply session_get_then_sent.
  intros response. unfold write_stream. keeps_auto.
Qed.

(** C1: a file entry is a skip exactly when the ledger has a record for its
    composite remote path with a stored update time at least the entry's
    and the mirror file exists: then the skipped counter goes up and no
    request is sent; otherwise a fetch is attempted (its resolve request is
    sent) and the skipped counter stays.  The ledger lookup itself is true
    exactly when such a record exists, and false when there is no record. *)
Theorem skip_iff_recorded_and_present E app_type folder_id local_path item_name
    note_id update_time w :
  let file_name := normalized_name item_name in
  let local_file_path := path_div local_path file_name in
  let remote_path := remote_identifier app_type folder_id note_id file_name in
  let recorded :=
    ∃ row, ledger w !! remote_path = Some row ∧ (update_time ≤ row_update_time row)%Z in
  let present := path_exists (fs w) local_file_path = true in
  (∃ synced, is_file_synced remote_path update_time w = (Ok synced, w)
             ∧ (synced = true ↔ recorded)
             ∧ (ledger w !! remote_path = None → synced = false))
  ∧ (recorded ∧ present →
     sync_file E app_type folder_id local_path item_name note_id update_time w
     = (Ok tt, set_stats count_skipped w))
  ∧ (¬ (recorded ∧ present) →
     ∃ r w', sync_file E app_type folder_id local_path item_name note_id update_time w
             = (r, w')
             ∧ skipped (stats w') = skipped (stats w)
             ∧ ∃ more, sent w' =
                 (sent w ++ resolve_request item_name note_id folder_id app_type :: more)%list).
Proof.
  intros file_name local_file_path remote_path recorded present.
  split_and!.
  - rewrite is_file_synced_unfold. eexists. split; [done|].
    unfold recorded. destruct (ledger w !! remote_path) as [row|].
    + rewrite bool_decide_eq_true. split_and!; [|done].
      split; [by eauto | by intros (row' & [= <-] & ?)].
    + split_and!; [|done]. split; [done | by intros (row' & ? & ?)].
  - intros Hskip. rewrite sync_file_unfold.
    fold file_name local_file_path remote_path.
    apply up_to_date_spec in Hskip. by rewrite Hskip.
  - intros Hfetch. rewrite sync_file_unfold.
    fold file_name local_file_path remote_path.
    destruct (up_to_date _ _ _ _) eqn:Hup; [by apply up_to_date_spec in Hup|].
    unfold bind at 1.
    destruct (download_file E item_name note_id folder_id app_type local_file_path w)
      as [r1 w1] eqn:Hdl.
    pose proof (download_file_sends_resolve _ _ _ _ _ _ _ _ _ Hdl) as [more Hsent].
    apply download_file_fetch_frame in Hdl as (_ & Hsk & _).
    destruct r1 as [[|]|e]; cbv beta iota.
    + lazymatch goal with
      | |- ∃ r w', ?m w1 = (r, w') ∧ _ =>
          destruct (m w1) as [r2 w2] eqn:Hk; assert (keeps tally_frame m) as Hkeeps
      end.
      { unfold record_sync, calculate_checksum. keeps_auto. }
      apply Hkeeps in Hk as (Hs & _ & Hk).
      exists r2, w2. rewrite Hk, Hs, Hsk. eauto.
    + eexists _, _. split; [done|]. simpl. rewrite Hsk. eauto.
    + eexists _, _. split; [done|]. rewrite Hsk. eauto.
Qed.

Lemma writable_mkdir t p :
  writable t p →
  ∃ t1, mkdir_tree (parent p) t = (Ok tt, t1) ∧ lookup_node t1 p ≠ Some Dir ∧ p ≠ [].
Proof.
  intros [Hmk Hnode]. destruct (mkdir_tree (parent p) t) as [r t1] eqn:Hrun.
  simpl in Hmk. subst r. exists t1. destruct p as [|c up]; [done|].
  split_and!; [done| |done]. by rewrite (mkdir_tree_below _ _ _ _ _ Hrun).
Qed.

Lemma path_exists_delete t p : p ≠ [] → path_exists (delete p t) p = false.
Proof.
  intros Hp. destruct p as [|c up]; [done|]. unfold path_exists. simpl.
  rewrite lookup_delete_eq. apply bool_decide_eq_false_2. by intros [? ?].
Qed.

Lemma download_file_empty E file_name note_id folder_id app_type local_path
    w file_path t1 :
  let req := resolve_request file_name note_id folder_id app_type in
  resolved (package_reply E (sent w) req) file_path →
  empty_transfer (download_reply E (sent w ++ [req]) (Download file_path)) →
  mkdir_tree (parent local_path) (fs w) = (Ok tt, t1) →
  lookup_node t1 local_path ≠ Some Dir →
  download_file E file_name note_id folder_id app_type local_path w =
  (Ok false,
   World (delete local_path t1) (ledger w) (stats w)
     (sent w ++ [req; Download file_path]) (clock w)).
Proof.
  intros req Hres Hempty Hmk Hdest.
  eapply download_file_of_attempt; [by apply download_attempt_empty | done].
Qed.

(** C3: when the resolve step succeeds and the transfer answers with status
    200 but its stream ends after zero bytes, a fetch into a destination
    that can be opened for writing returns [False], leaves no file at the
    destination, and writes nothing to the ledger; the synchronizer then
    counts the file as failed without calling [record_sync] (ledger and
    clock are those of the failed fetch). *)
Theorem zero_byte_download_is_failure E item_name note_id folder_id app_type
    destination w file_path :
  let req := resolve_request item_name note_id folder_id app_type in
  resolved (package_reply E (sent w) req) file_path →
  empty_transfer (download_reply E (sent w ++ [req]) (Download file_path)) →
  writable (fs w) destination →
  ∃ w', download_file E item_name note_id folder_id app_type destination w = (Ok false, w')
        ∧ path_exists (fs w') destination = false
        ∧ ledger w' = ledger w
        ∧ clock w' = clock w
        ∧ ∀ local_path update_time,
            let file_name := normalized_name item_name in
            destination = path_div local_path file_name →
            up_to_date w (remote_identifier app_type folder_id note_id file_name)
              update_time destination = false →
            sync_file E app_type folder_id local_path item_name note_id update_time w
            = (Ok tt, set_stats count_failed w').
Proof.
  intros req Hres Hempty Hwr.
  destruct (writable_mkdir _ _ Hwr) as (t1 & Hmk & Hdest & Hne).
  pose proof (download_file_empty E item_name note_id folder_id app_type destination
                w file_path t1 Hres Hempty Hmk Hdest) as Hrun.
  eexists. split_and!; [exact Hrun| | | |].
  - by apply path_exists_delete.
  - done.
  - done.
  - intros local_path update_time file_name Hdst Hfetch. subst destination.
    by apply sync_file_fetch_failed.
Qed.

Lemma zero_byte_download_is_failure_witness :
  ∃ w', download_file (demo_device demo_listing resolves_ok sends_nothing)
          "ideas" "N1" "" "APP_PAPER" ideas_path empty_world = (Ok false, w')
        ∧ path_exists (fs w') ideas_path = false
        ∧ ledger w' = ledger empty_world
        ∧ clock w' = clock empty_world
        ∧ ∀ local_path update_time,
            let file_name := normalized_name "ideas" in
            ideas_path = path_div local_path file_name →
            up_to_date empty_world (remote_identifier "APP_PAPER" "" "N1" file_name)
              update_time ideas_path = false →
            sync_file (demo_device demo_listing resolves_ok sends_nothing)
              "APP_PAPER" "" local_path "ideas" "N1" update_time empty_world
            = (Ok tt, set_stats count_failed w').
Proof.
  apply (zero_byte_download_is_failure
           (demo_device demo_listing resolves_ok sends_nothing)
           "ideas" "N1" "" "APP_PAPER" ideas_path empty_world "/storage/notes/N1.note").
  - split; [reflexivity | discriminate].
  - exists (Stream [[]] false). split_and!; reflexivity.
  - split; [reflexivity | discriminate].
Defined.

(** C9: when the destination already holds a file (in an existing
    directory) and a re-fetch resolves but its transfer answers with status
    200 and zero bytes, the fetcher returns [False] and the file that was
    there is gone: the file system is the old one with the destination
    deleted, while the ledger is unchanged. *)
Theorem empty_refetch_deletes_existing_file E file_name note_id folder_id app_type
    local_path w file_path old :
  let req := resolve_request file_name note_id folder_id app_type in
  lookup_node (fs w) local_path = Some (File old) →
  lookup_node (fs w) (parent local_path) = Some Dir →
  resolved (package_reply E (sent w) req) file_path →
  empty_transfer (download_reply E (sent w ++ [req]) (Download file_path)) →
  ∃ w', download_file E file_name note_id folder_id app_type local_path w = (Ok false, w')
        ∧ fs w' = delete local_path (fs w)
        ∧ path_exists (fs w') local_path = false
        ∧ ledger w' = ledger w.
Proof.
  intros req Hold Hparent Hres Hempty.
  pose proof (download_file_empty E file_name note_id folder_id app_type local_path
                w file_path (fs w) Hres Hempty (mkdir_tree_dir _ _ Hparent)) as Hrun.
  rewrite Hrun by (by rewrite Hold).
  eexists. split_and!; [done..| |done]. simpl.
  apply path_exists_delete. by intros ->.
Qed.

Lemma empty_refetch_deletes_existing_file_witness :
  ∃ w', download_file (demo_device demo_listing resolves_ok sends_nothing)
          "ideas" "N1" "" "APP_PAPER" ideas_path synced_world = (Ok false, w')
        ∧ fs w' = delete ideas_path (fs synced_world)
        ∧ path_exists (fs w') ideas_path = false
        ∧ ledger w' = ledger synced_world.
Proof.
  apply (empty_refetch_deletes_existing_file
           (demo_device demo_listing resolves_ok sends_nothing)
           "ideas" "N1" "" "APP_PAPER" ideas_path synced_world
           "/storage/notes/N1.note" ["n"; "o"; "t"; "e"]%byte).
  - reflexivity.
  - reflexivity.
  - split; [reflexivity | discriminate].
  - exists (Stream [[]] false). split_and!; reflexivity.
Defined.

(** C4: the fetcher never writes to the ledger, whatever its outcome; and
    when a fetch fails, the synchronizer adds one to the failed counter,
    leaves the other counters, and leaves the ledger exactly as it was
    before the fetch. *)
Theorem failed_fetch_leaves_ledger E app_type folder_id local_path item_name note_id
    update_time w w' :
  let file_name := normalized_name item_name in
  let local_file_path := path_div local_path file_name in
  let remote_path := remote_identifier app_type folder_id note_id file_name in
  up_to_date w remote_path update_time local_file_path = false →
  download_file E item_name note_id folder_id app_type local_file_path w = (Ok false, w') →
  ∃ w'', sync_file E app_type folder_id local_path item_name note_id update_time w
         = (Ok tt, w'')
         ∧ ledger w'' = ledger w
         ∧ ledger w' = ledger w
         ∧ stats w'' = count_failed (stats w)
         ∧ failed (stats w'') = S (failed (stats w)).
Proof.
  intros file_name local_file_path remote_path Hfetch Hfail.
  pose proof (download_file_fetch_frame _ _ _ _ _ _ _ _ _ Hfail) as (Hledger & Hstats & _).
  exists (set_stats count_failed w'). split_and!; simpl; try done.
  - by apply sync_file_fetch_failed.
  - by rewrite Hstats.
  - by rewrite Hstats.
Qed.

Lemma failed_fetch_leaves_ledger_witness :
  ∃ w'', sync_file (demo_device demo_listing (server_error NotJson) sends_bytes)
           "APP_PAPER" "" ["Paper"; "viwoods_sync"] "ideas" "N1" 150 synced_world
         = (Ok tt, w'')
         ∧ ledger w'' = ledger synced_world
         ∧ ledger (log_request (PackageFile "APP_PAPER" "N1" "ideas.note" "") synced_world)
           = ledger synced_world
         ∧ stats w'' = count_failed (stats synced_world)
         ∧ failed (stats w'') = S (failed (stats synced_world)).
Proof.
  apply (failed_fetch_leaves_ledger
           (demo_device demo_listing (server_error NotJson) sends_bytes)
           "APP_PAPER" "" ["Paper"; "viwoods_sync"] "ideas" "N1" 150 synced_world
           (log_request (PackageFile "APP_PAPER" "N1" "ideas.note" "") synced_world)).
  - reflexivity.
  - reflexivity.
Defined.

Lemma download_failure_leaves_fs_untouched_witness :
  ∃ w', download_file (demo_device demo_listing (server_error NotJson) sends_bytes)
          "ideas" "N1" "" "APP_PAPER" ideas_path empty_world = (Ok false, w')
        ∧ fs w' = fs empty_world.
Proof.
  apply (download_failure_leaves_fs_untouched
           (demo_device demo_listing (server_error NotJson) sends_bytes)
           "ideas" "N1" "" "APP_PAPER" ideas_path empty_world).
  left. apply resolve_status. discriminate.
Defined.

(** ** The two entry points *)

Lemma sync_all_unfold E include_all w :
  sync_all E include_all w =
  for_each (root_items E w) (sync_root_item E include_all) (after_root_listing w).
Proof.
  unfold sync_all. unfold bind at 1. unfold modify at 1.
  unfold bind at 1. rewrite list_folder_unfold. done.
Qed.






#[local] Instance only_lists_preorder : PreOrder only_lists.
Proof.
  split.
  - intros w. split; [done|]. exists []. by rewrite app_nil_r.
  - intros w1 w2 w3 [Hf1 (m1 & Hs1 & Hl1)] [Hf2 (m2 & Hs2 & Hl2)].
    split; [by etrans|]. exists (m1 ++ m2)%list.
    split; [by rewrite Hs2, Hs1, app_assoc | by apply Forall_app].
Qed.

Lemma list_folder_only_lists E app_type folder_name folder_id :
  keeps only_lists (list_folder E app_type folder_name folder_id).
Proof.
  intros w r w'. rewrite list_folder_unfold. intros [= <- <-].
  split; [done|]. eexists [_]. split; [done|]. by repeat constructor.
Qed.

Lemma navigate_only_lists E app_type parts current_folder_id current_items :
  keeps only_lists (navigate E app_type parts current_folder_id current_items).
Proof.
  revert current_folder_id current_items.
  induction parts as [|folder_name rest IH]; intros current_folder_id current_items; simpl.
  - apply keeps_ret. apply _.
  - destruct (find_folder current_items folder_name) as [item|];
      [|apply keeps_ret; apply _].
    apply keeps_bind; [apply _|apply list_folder_only_lists|]. intros items. apply IH.
Qed.

(** Navigating a path is navigating a prefix, then the rest from the state
    and the listing the prefix led to. *)
Lemma navigate_app E app_type pre rest current_folder_id current_items w :
  navigate E app_type (pre ++ rest) current_folder_id current_items w =
  match navigate E app_type pre current_folder_id current_items w with
  | (Ok (Some (reached_id, reached_items)), w') =>
      navigate E app_type rest reached_id reached_items w'
  | (Ok None, w') => (Ok None, w')
  | (Raise e, w') => (Raise e, w')
  end.
Proof.
  revert current_folder_id current_items w.
  induction pre as [|folder_name pre IH]; intros current_folder_id current_items w;
    [done|].
  simpl. destruct (find_folder current_items folder_name) as [item|]; [|done].
  unfold bind. rewrite list_folder_unfold. apply IH.
Qed.

(** A successful navigation requests one listing per segment. *)
Lemma navigate_listings E app_type parts current_folder_id current_items w reached w' :
  navigate E app_type parts current_folder_id current_items w = (Ok (Some reached), w') →
  length (sent w') = (length (sent w) + length parts)%nat.
Proof.
  revert current_folder_id current_items w.
  induction parts as [|folder_name rest IH]; intros current_folder_id current_items w;
    simpl.
  - intros [= _ <-]. lia.
  - destruct (find_folder current_items folder_name) as [item|]; [|done].
    unfold bind. rewrite list_folder_unfold. intros Hrun. apply IH in Hrun.
    rewrite Hrun. simpl. rewrite length_app. simpl. lia.
Qed.

Lemma find_folder_none current_items folder_name :
  Forall (λ item, ¬ (fileName item = Some folder_name
                     ∧ or_default false (isFolder item) = true)) current_items →
  find_folder current_items folder_name = None.
Proof.
  unfold find_folder. induction 1 as [|item items Hitem _ IH]; [done|]. simpl.
  destruct (bool_decide _ && _) eqn:Hmatch; [|done].
  apply andb_true_iff in Hmatch as [Hname%bool_decide_eq_true Hfolder]. by destruct Hitem.
Qed.

Lemma find_app_type_none items root_name :
  Forall (λ item, fileName item ≠ Some root_name) items →
  find_app_type items root_name = None.
Proof.
  unfold find_app_type. induction 1 as [|item items Hitem _ IH]; [done|]. simpl.
  by rewrite bool_decide_eq_false_2.
Qed.

(** The part of [sync_folder] that follows the root lookup. *)
Lemma sync_folder_unfold E folder_path root_name rest w :
  split_slash folder_path = root_name :: rest →
  sync_folder E folder_path w =
  match find_app_type (root_items E w) root_name with
  | Some app_type =>
      if bool_decide (app_type = "") then (Ok tt, after_root_listing w) else
      (current_items <- list_folder E app_type root_name (Some "") ;;
       reached <- navigate E app_type rest None current_items ;;
       match reached with
       | None => ret tt
       | Some (current_folder_id, _) =>
           sync_folder_recursive E (recursion_limit E) app_type
             (List.last (root_name :: rest) "")
             (if truthy_str current_folder_id then or_default "" current_folder_id else "")
             (path_div (local_dir E) folder_path) (root_name :: rest)
       end) (after_root_listing w)
  | None => (Ok tt, after_root_listing w)
  end.
Proof.
  intros Hparts. unfold sync_folder. rewrite Hparts.
  unfold bind at 1. unfold modify at 1.
  unfold bind at 1. rewrite list_folder_unfold.
  fold root_request. fold (after_root_listing w).
  change (listed (list_reply E (sent (set_stats (λ _, no_stats) w)) root_request))
    with (root_items E w).
  destruct (find_app_type (root_items E w) root_name) as [app_type|]; [|done].
  simpl. by case_bool_decide.
Qed.

(** C8: a scoped sync whose root name is not among the top-level entries
    returns after the root listing alone.  When the root is found and the
    segments before some segment resolve, but that segment is not the name
    of a folder entry of the listing reached, the scoped sync returns in
    the state the navigation had reached: files, ledger and counters
    untouched, only listing requests sent (no fetch), and exactly one
    listing for the root, one for the first segment and one for each
    resolved segment, so none for the missing segment or any after it. *)
Theorem scoped_sync_aborts_on_missing_segment E folder_path w :
  (∀ root_name rest,
     split_slash folder_path = root_name :: rest →
     Forall (λ item, fileName item ≠ Some root_name) (root_items E w) →
     sync_folder E folder_path w = (Ok tt, after_root_listing w))
  ∧ (∀ root_name pre segment post app_type reached_id reached_items w',
     let first_request := list_request app_type root_name (Some "") in
     split_slash folder_path = root_name :: (pre ++ segment :: post)%list →
     find_app_type (root_items E w) root_name = Some app_type →
     app_type ≠ "" →
     navigate E app_type pre None
       (listed (list_reply E (sent (after_root_listing w)) first_request))
       (log_request first_request (after_root_listing w))
     = (Ok (Some (reached_id, reached_items)), w') →
     Forall (λ item, ¬ (fileName item = Some segment
                        ∧ or_default false (isFolder item) = true)) reached_items →
     sync_folder E folder_path w = (Ok tt, w')
     ∧ fs w' = fs w ∧ ledger w' = ledger w ∧ stats w' = no_stats
     ∧ ∃ lists, sent w' = (sent w ++ lists)%list
                ∧ Forall is_list_request lists
                ∧ length lists = (2 + length pre)%nat).
Proof.
  split.
  - intros root_name rest Hparts Hmissing.
    rewrite (sync_folder_unfold _ _ _ _ _ Hparts).
    by rewrite find_app_type_none.
  - intros root_name pre segment post app_type reached_id reached_items w'
      first_request Hparts Hroot Happ Hnav Hmissing.
    split.
    + rewrite (sync_folder_unfold _ _ _ _ _ Hparts), Hroot.
      rewrite bool_decide_eq_false_2 by done.
      unfold bind at 1. rewrite list_folder_unfold. fold first_request.
      unfold bind at 1. rewrite navigate_app, Hnav. simpl.
      by rewrite find_folder_none.
    + pose proof (navigate_only_lists _ _ _ _ _ _ _ _ Hnav)
        as [(Hfs & Hledger & Hstats & _) (more & Hsent & Hlists)].
      pose proof (navigate_listings _ _ _ _ _ _ _ _ Hnav) as Hcount.
      split_and!; [done..|].
      exists (root_request :: first_request :: more).
      split_and!.
      * rewrite Hsent. simpl. by rewrite <- !app_assoc.
      * by repeat constructor.
      * rewrite Hsent in Hcount. simpl in Hcount. rewrite !length_app in Hcount.
        simpl in *. lia.
Qed.

Lemma scoped_sync_aborts_on_missing_segment_witness :
  let E := demo_device demo_listing resolves_ok sends_bytes in
  let w' := log_request (list_request "APP_PAPER" "Paper" (Some ""))
              (after_root_listing empty_world) in
  sync_folder E "Paper/Drafts/Old" empty_world = (Ok tt, w')
  ∧ fs w' = fs empty_world ∧ ledger w' = ledger empty_world ∧ stats w' = no_stats
  ∧ ∃ lists, sent w' = (sent empty_world ++ lists)%list
             ∧ Forall is_list_request lists
             ∧ length lists = (2 + length (@nil string))%nat.
Proof.
  intros E w'.
  apply (proj2 (scoped_sync_aborts_on_missing_segment E "Paper/Drafts/Old" empty_world)
           "Paper" [] "Drafts" ["Old"] "APP_PAPER" None [ideas_entry] w').
  - reflexivity.
  - reflexivity.
  - discriminate.
  - reflexivity.
  - constructor; [|constructor]. intros [_ Hfolder]. discriminate.
Defined.

(** ** The traversal follows its plan *)

Lemma bind_ext {A B} (m : M A) (k k' : A → M B) w :
  (∀ a w', k a w' = k' a w') → bind m k w = bind m k' w.
Proof. intros Hk. unfold bind. destruct (m w) as [[a|e] w']; [apply Hk|done]. Qed.

Lemma bind_ret_r (m : M unit) w : bind m (λ _, ret tt) w = m w.
Proof. unfold bind. by destruct (m w) as [[[]|e] w']. Qed.

Lemma bind_assoc {A B C} (m : M A) (k : A → M B) (k' : B → M C) w :
  bind (bind m k) k' w = bind m (λ a, bind (k a) k') w.
Proof. unfold bind. by destruct (m w) as [[a|e] w']. Qed.

Lemma for_each_app {A} (l1 l2 : list A) (body : A → M unit) w :
  for_each (l1 ++ l2) body w = bind (for_each l1 body) (λ _, for_each l2 body) w.
Proof.
  revert w. induction l1 as [|x l1 IH]; intros w; [done|].
  simpl. rewrite bind_assoc. apply bind_ext. intros _ w'. apply IH.
Qed.

Lemma for_each_flat_map {A B} (f : A → list B) (body : A → M unit) (step : B → M unit)
    (l : list A) w :
  (∀ x w', body x w' = for_each (f x) step w') →
  for_each l body w = for_each (flat_map f l) step w.
Proof.
  intros Hbody. revert w. induction l as [|x l IH]; intros w; [done|].
  simpl. rewrite for_each_app. unfold bind at 1 2. rewrite Hbody.
  destruct (for_each (f x) step w) as [[[]|e] w']; [apply IH|done].
Qed.

Lemma sync_folder_recursive_plan E depth app_type folder_name folder_id local_path
    path_stack w :
  stable_listing E →
  sync_folder_recursive E depth app_type folder_name folder_id local_path path_stack w
  = run_plan E (folder_plan E depth app_type folder_name folder_id local_path) w.
Proof.
  intros Hstable. unfold run_plan.
  revert app_type folder_name folder_id local_path path_stack w.
  induction depth as [|depth IH];
    intros app_type folder_name folder_id local_path path_stack w; [done|].
  simpl. apply bind_ext. intros _ w1.
  unfold bind at 1. rewrite list_folder_unfold, Hstable.
  unfold bind at 2. unfold modify at 1.
  apply for_each_flat_map. intros item w2.
  destruct (or_default false (isFolder item)).
  - simpl. apply bind_ext. intros _ w3. apply IH.
  - simpl. by rewrite bind_ret_r.
Qed.

Lemma sync_all_plan E include_all w :
  stable_listing E →
  sync_all E include_all w
  = run_plan E (full_plan E include_all) (set_stats (λ _, no_stats) w).
Proof.
  intros Hstable. rewrite sync_all_unfold. unfold run_plan, full_plan. simpl.
  unfold bind at 1. unfold modify at 1. unfold root_items. rewrite Hstable.
  apply for_each_flat_map. intros root_item w'.
  unfold sync_root_item, root_plan.
  destruct (negb include_all && _); [done|].
  by apply sync_folder_recursive_plan.
Qed.

(** ** A successful fetch *)

Section yields_rules.
Context (R : relation world) `{!PreOrder R}.

Lemma yields_ret {A} (φ : A → Prop) (a : A) : yields R φ (ret a).
Proof. intros w a' w' [= <- <-] _. reflexivity. Qed.

Lemma yields_raise {A} (φ : A → Prop) e : yields R φ (raise e).
Proof. by intros w a w'. Qed.

Lemma yields_never {A} (φ : A → Prop) (m : M A) :
  (∀ w a w', m w = (Ok a, w') → ¬ φ a) → yields R φ m.
Proof. intros Hm w a w' Hrun Ha. by destruct (Hm _ _ _ Hrun). Qed.

Lemma yields_bind {A B} (φ : B → Prop) (m : M A) (k : A → M B) :
  yields R (λ _, True) m → (∀ a, yields R φ (k a)) → yields R φ (bind m k).
Proof.
  intros Hm Hk w b w'. unfold bind.
  destruct (m w) as [[a|e] w1] eqn:Hw; [|done].
  intros Hrun Hb. transitivity w1; [by eapply Hm | by eapply Hk].
Qed.

Lemma yields_for_each {A} (φ : unit → Prop) (l : list A) (body : A → M unit) :
  (∀ x, yields R (λ _, True) (body x)) → yields R φ (for_each l body).
Proof.
  intros Hbody. induction l as [|x l IH]; simpl.
  - apply yields_ret.
  - apply yields_bind; [apply Hbody | intros _; apply IH].
Qed.

Lemma keeps_yields {A} (φ : A → Prop) (m : M A) : keeps R m → yields R φ m.
Proof. intros Hm w a w' Hrun _. by eapply Hm. Qed.
End yields_rules.

Lemma ensures_bind {A B} (Q : B → world → Prop) (m : M A) (k : A → M B) :
  (∀ a, ensures Q (k a)) → ensures Q (bind m k).
Proof.
  intros Hk w b w'. unfold bind. destruct (m w) as [[a|e] w1]; [|done]. apply Hk.
Qed.

#[local] Instance fs_grows_preorder : PreOrder fs_grows.
Proof.
  split.
  - by intros w p.
  - intros w1 w2 w3 H12 H23 p. destruct (H12 p), (H23 p). naive_solver.
Qed.

#[local] Instance dirs_kept_preorder : PreOrder dirs_kept.
Proof.
  split.
  - by intros w p.
  - intros w1 w2 w3 H12 H23 p ?. by apply H23, H12.
Qed.

#[local] Instance failed_grows_preorder : PreOrder failed_grows.
Proof. unfold failed_grows. split; [intros w; lia | intros w1 w2 w3; lia]. Qed.

Lemma fs_grows_same w w' : fs w' = fs w → fs_grows w w'.
Proof. intros Hfs p. by rewrite Hfs. Qed.

Lemma lookup_node_insert t p n q :
  p ≠ [] →
  lookup_node (<[p := n]> t) q = if decide (p = q) then Some n else lookup_node t q.
Proof.
  intros Hp. destruct q as [|c q]; simpl.
  - by rewrite decide_False.
  - by rewrite lookup_insert.
Qed.

Lemma mkdir_fs_grows p : keeps fs_grows (mkdir p).
Proof.
  intros w r w'. unfold mkdir.
  destruct (mkdir_tree p (fs w)) as [r1 t] eqn:Hmk. intros [= <- <-] q.
  destruct q as [|c q]; [done|]. simpl.
  destruct (mkdir_tree_grows _ _ _ _ (c :: q) Hmk) as [->|[-> ->]]; [done|].
  split; [done | by eauto].
Qed.

Lemma open_wb_fs_grows p : keeps fs_grows (open_wb p).
Proof.
  intros w r w'. unfold open_wb.
  destruct (lookup_node (fs w) p) as [[content|]|] eqn:Hp;
    [|by intros [= <- <-]|];
    (destruct (lookup_node (fs w) (parent p)) as [[c2|]|];
       [by intros [= <- <-]| |by intros [= <- <-]]);
    intros [= <- <-] q; simpl;
    (destruct p as [|c p]; [done|]);
    rewrite lookup_node_insert by done;
    (destruct (decide (c :: p = q)) as [<-|Hne]; [|done]);
    rewrite Hp; (split; [done | by eauto]).
Qed.

Lemma write_fs_grows p chunk : keeps fs_grows (write p chunk).
Proof.
  intros w r w'. unfold write.
  destruct (fs w !! p) as [[content|]|] eqn:Hp; try by intros [= <- <-].
  intros [= <- <-] q; simpl.
  destruct p as [|c p].
  - destruct q as [|c' q]; [done|]. simpl. by rewrite lookup_insert_ne.
  - rewrite lookup_node_insert by done.
    destruct (decide (c :: p = q)) as [<-|Hne]; [|done].
    simpl. rewrite Hp. split; [done | by eauto].
Qed.

Lemma session_get_fs_grows {B} reply r : keeps fs_grows (session_get (B:=B) reply r).
Proof.
  intros w a w'. unfold session_get.
  destruct (reply (sent w) r); intros [= <- <-]; by apply fs_grows_same.
Qed.

Lemma write_stream_fs_grows p s : keeps fs_grows (write_stream p s).
Proof.
  unfold write_stream. keeps_struct; try apply write_fs_grows.
Qed.

Lemma unlink_never_true p w (a : bool) w' :
  (unlink p ;; ret false) w = (Ok a, w') → ¬ (a = true).
Proof.
  unfold bind, ret. destruct (unlink p w) as [[[]|e] w1]; [|done]. by intros [= <- <-].
Qed.

Lemma download_attempt_fs_grows E file_name note_id folder_id app_type local_path :
  yields fs_grows (λ fetched, fetched = true)
    (download_attempt E file_name note_id folder_id app_type local_path).
Proof.
  unfold download_attempt.
  apply yields_bind; [apply _|apply keeps_yields, session_get_fs_grows|]. intros response.
  destruct (negb _); [apply yields_ret; apply _|].
  apply yields_bind; [apply _|apply keeps_yields, response_json_keeps; apply _|].
  intros data.
  apply yields_bind; [apply _|apply keeps_yields, get_code_keeps; apply _|].
  intros code.
  destruct (negb _); [apply yields_ret; apply _|].
  apply yields_bind; [apply _|apply keeps_yields, get_data_keeps; apply _|].
  intros [[file_path|]|]; [|apply yields_ret; apply _..].
  case_bool_decide; [apply yields_ret; apply _|].
  apply yields_bind; [apply _|apply keeps_yields, session_get_fs_grows|]. intros response2.
  destruct (negb _); [apply yields_ret; apply _|].
  apply yields_bind; [apply _|apply keeps_yields, mkdir_fs_grows|]. intros _.
  apply yields_bind; [apply _|apply keeps_yields, open_wb_fs_grows|]. intros _.
  apply yields_bind; [apply _|apply keeps_yields, write_stream_fs_grows|]. intros _.
  apply yields_bind; [apply _|apply keeps_yields, st_size_keeps; apply _|]. intros size.
  case_bool_decide; [|apply yields_ret; apply _].
  apply yields_never. apply unlink_never_true.
Qed.

Lemma download_attempt_present E file_name note_id folder_id app_type local_path :
  ensures (λ fetched w', fetched = true → is_Some (lookup_node (fs w') local_path))
    (download_attempt E file_name note_id folder_id app_type local_path).
Proof.
  unfold download_attempt.
  apply ensures_bind. intros response.
  destruct (negb _); [by intros w a w' [= <- <-]|].
  apply ensures_bind. intros data. apply ensures_bind. intros code.
  destruct (negb _); [by intros w a w' [= <- <-]|].
  apply ensures_bind. intros [[file_path|]|]; [|by intros w a w' [= <- <-]..].
  case_bool_decide; [by intros w a w' [= <- <-]|].
  apply ensures_bind. intros response2.
  destruct (negb _); [by intros w a w' [= <- <-]|].
  do 3 (apply ensures_bind; intros _).
  intros w a w'. unfold bind, st_size.
  destruct (lookup_node (fs w) local_path) as [[content|]|] eqn:Hp; [| |done];
    (case_bool_decide;
       [intros Hrun; by apply unlink_never_true in Hrun
       |intros [= <- <-] _; rewrite Hp; by eauto]).
Qed.

Lemma download_file_true E file_name note_id folder_id app_type local_path w w' :
  download_file E file_name note_id folder_id app_type local_path w = (Ok true, w') →
  download_attempt E (normalized_name file_name) note_id folder_id app_type local_path w
  = (Ok true, w').
Proof.
  unfold download_file, try_except. fold (normalized_name file_name).
  destruct (download_attempt _ _ _ _ _ _ w) as [[fetched|e] w1]; [|done].
  by intros [= -> ->].
Qed.

(** A fetch that succeeds keeps every directory and every existing path,
    leaves something at the destination, and does not touch the ledger. *)
Lemma download_file_success E file_name note_id folder_id app_type local_path w w' :
  download_file E file_name note_id folder_id app_type local_path w = (Ok true, w') →
  fs_grows w w' ∧ is_Some (lookup_node (fs w') local_path) ∧ fetch_frame w w'.
Proof.
  intros Hrun. split_and!.
  - apply download_file_true in Hrun. by eapply download_attempt_fs_grows.
  - apply download_file_true in Hrun. by eapply download_attempt_present.
  - by eapply download_file_fetch_frame.
Qed.

(** ** One step of a traversal *)

Lemma sync_file_failed_grows E app_type folder_id local_path item_name note_id
    update_time :
  keeps failed_grows
    (sync_file E app_type folder_id local_path item_name note_id update_time).
Proof.
  unfold sync_file, is_file_synced, download_file, download_attempt, write_stream,
    record_sync, calculate_checksum.
  keeps_auto.
Qed.

Lemma run_action_failed_grows E a : keeps failed_grows (run_action E a).
Proof.
  destruct a; simpl; try keeps_prim. apply sync_file_failed_grows.
Qed.

Lemma settled_spec w t :
  settled w t ↔
  (∃ row, ledger w !! t.1.1 = Some row ∧ (t.1.2 ≤ row_update_time row)%Z)
  ∧ is_Some (lookup_node (fs w) t.2).
Proof.
  unfold settled. rewrite up_to_date_spec. unfold path_exists.
  by rewrite bool_decide_eq_true.
Qed.

(** Being settled only depends on the ledger and on what exists. *)
Lemma settled_transfer w w' t :
  settled w t →
  ledger w' = ledger w →
  (is_Some (lookup_node (fs w) t.2) → is_Some (lookup_node (fs w') t.2)) →
  settled w' t.
Proof.
  rewrite !settled_spec. intros [Hrow Hfile] -> Hfs. split; [done | by apply Hfs].
Qed.

(** The three ways [sync_file] returns. *)
Lemma sync_file_outcomes E app_type folder_id local_path item_name note_id
    update_time w w' :
  let file_name := normalized_name item_name in
  let local_file_path := path_div local_path file_name in
  let remote_path := remote_identifier app_type folder_id note_id file_name in
  sync_file E app_type folder_id local_path item_name note_id update_time w = (Ok tt, w') →
  (up_to_date w remote_path update_time local_file_path = true
   ∧ w' = set_stats count_skipped w)
  ∨ (up_to_date w remote_path update_time local_file_path = false
     ∧ ∃ w1, download_file E item_name note_id folder_id app_type local_file_path w
             = (Ok false, w1)
             ∧ w' = set_stats count_failed w1)
  ∨ (up_to_date w remote_path update_time local_file_path = false
     ∧ ∃ w1 row, download_file E item_name note_id folder_id app_type local_file_path w
                 = (Ok true, w1)
                 ∧ row_update_time row = update_time
                 ∧ w' = World (fs w1) (<[remote_path := row]> (ledger w1))
                          (count_downloaded (stats w1)) (sent w1) (S (clock w1))).
Proof.
  intros file_name local_file_path remote_path.
  rewrite sync_file_unfold. fold file_name local_file_path remote_path.
  destruct (up_to_date _ _ _ _); [intros [= <-]; by left|].
  unfold bind at 1.
  destruct (download_file _ _ _ _ _ _ w) as [[[|]|e] w1]; [| |done].
  - intros Hrun. right. right. split; [done|]. exists w1.
    revert Hrun.
    unfold bind, st_size, record_sync, calculate_checksum, read_file, datetime_now,
      insert_or_replace, bump_downloaded, modify, raise, ret, bind.
    destruct (lookup_node (fs w1) local_file_path) as [[content|]|] eqn:Hfile;
      simpl; rewrite ?Hfile; simpl; try done.
    destruct (fits_int64 _ && fits_int64 _); [|done].
    intros [= <-]. eexists (SyncRecord note_id update_time _ _ _). by split.
  - intros [= <-]. right. left. eauto.
Qed.

Lemma up_to_date_false_stale w remote_path update_time local_file row :
  up_to_date w remote_path update_time local_file = false →
  ledger w !! remote_path = Some row →
  is_Some (lookup_node (fs w) local_file) →
  (row_update_time row < update_time)%Z.
Proof.
  unfold up_to_date, path_exists. intros Hstale Hrow Hfile.
  rewrite Hrow, (bool_decide_eq_true_2 _ Hfile), andb_true_r in Hstale.
  apply bool_decide_eq_false in Hstale. lia.
Qed.

(** What one step that returns without a failed fetch establishes: its own
    file entry is settled, settled entries stay settled unless the step
    handles the same remote path at another mirror path, directories stay,
    and a directory the step makes is there. *)
Lemma run_action_settles E a w w' :
  run_action E a w = (Ok tt, w') →
  failed (stats w') = failed (stats w) →
  (∀ t, target a = Some t → settled w' t)
  ∧ (∀ t, settled w t →
          (∀ t', target a = Some t' → t'.1.1 = t.1.1 → t'.2 = t.2) →
          settled w' t)
  ∧ dirs_kept w w'
  ∧ (∀ p, a = MakeDir p → lookup_node (fs w') p = Some Dir)
  ∧ a ≠ TooDeep.
Proof.
  destruct a as [p|r| |app_type folder_id local_path item_name note_id update_time|];
    simpl; [| | | |done].
  - (* a directory is made *)
    intros Hrun _.
    pose proof (mkdir_fs_grows p _ _ _ Hrun) as Hgrows.
    pose proof (mkdir_fetch_frame p _ _ _ Hrun) as (Hledger & _).
    split_and!; [done| | | |done].
    + intros t Ht _. apply (settled_transfer w); [done..|apply Hgrows].
    + intros q. apply Hgrows.
    + intros q [= <-]. unfold mkdir in Hrun.
      destruct (mkdir_tree p (fs w)) as [r t] eqn:Hmk.
      injection Hrun as -> <-. simpl. by apply (mkdir_tree_ok _ _ _ Hmk).
  - (* a listing is requested *)
    unfold modify. intros [= <-] _. split_and!; [done| |by intros q|done..].
    intros t Ht _. by apply (settled_transfer w).
  - (* a folder is counted *)
    unfold bump_folders, modify. intros [= <-] _.
    split_and!; [done| |by intros q|done..].
    intros t Ht _. by apply (settled_transfer w).
  - (* a file is handled *)
    intros Hrun Hfailed.
    set (file_name := normalized_name item_name) in *.
    set (local_file_path := path_div local_path file_name) in *.
    set (remote_path := remote_identifier app_type folder_id note_id file_name) in *.
    destruct (sync_file_outcomes _ _ _ _ _ _ _ _ _ Hrun)
      as [[Hskip ->]|[[_ (w1 & Hfetch & ->)]|[Hstale (w1 & row & Hfetch & Hrow & ->)]]].
    + split_and!; [|  |by intros q|done..].
      * by intros t [= <-].
      * intros t Ht _. by apply (settled_transfer w).
    + apply download_file_fetch_frame in Hfetch as (_ & Hstats & _).
      simpl in Hfailed. rewrite Hstats in Hfailed. lia.
    + apply download_file_success in Hfetch as (Hgrows & Hfile & Hledger & _).
      fold file_name local_file_path remote_path in Hstale.
      split_and!; [| | |done..].
      * intros t [= <-]. apply settled_spec. simpl. split; [|done].
        exists row. rewrite lookup_insert_eq. split; [done|lia].
      * intros t Ht Hsame. apply settled_spec. simpl.
        apply settled_spec in Ht as [(row0 & Hrow0 & Hle) Ht].
        split; [|by apply Hgrows].
        destruct (decide (remote_path = t.1.1)) as [Heq|Hne].
        -- exists row. rewrite <- Heq, lookup_insert_eq. split; [done|].
           specialize (Hsame _ eq_refl Heq). simpl in Hsame.
           rewrite <- Heq in Hrow0. rewrite <- Hsame in Ht.
           pose proof (up_to_date_false_stale _ _ _ _ _ Hstale Hrow0 Ht). lia.
        -- exists row0. rewrite lookup_insert_ne by done. by rewrite Hledger.
      * intros q. apply Hgrows.
Qed.

(** ** A whole traversal *)

Lemma run_plan_cons E a plan w :
  run_plan E (a :: plan) w = bind (run_action E a) (λ _, run_plan E plan) w.
Proof. done. Qed.

Lemma run_plan_cons_ok E a plan w w' :
  run_plan E (a :: plan) w = (Ok tt, w') →
  ∃ w1, run_action E a w = (Ok tt, w1) ∧ run_plan E plan w1 = (Ok tt, w').
Proof.
  rewrite run_plan_cons. unfold bind.
  destruct (run_action E a w) as [[[]|e] w1]; [|done]. eauto.
Qed.

Lemma run_plan_failed_grows E plan : keeps failed_grows (run_plan E plan).
Proof. apply keeps_for_each; [apply _|]. apply run_action_failed_grows. Qed.

Lemma elem_of_targets t plan : t ∈ targets plan ↔ ∃ a, a ∈ plan ∧ target a = Some t.
Proof. apply list_elem_of_omap. Qed.

Lemma identified_cons a plan : identified (a :: plan) → identified plan.
Proof.
  intros Hid t t' Ht Ht'. apply Hid; apply elem_of_targets.
  - apply elem_of_targets in Ht as (b & ? & ?). exists b. by rewrite elem_of_cons; eauto.
  - apply elem_of_targets in Ht' as (b & ? & ?). exists b. by rewrite elem_of_cons; eauto.
Qed.

(** The first run: a traversal that returns without a failed fetch leaves
    every file entry of its plan settled and every directory made. *)
Lemma run_plan_settles E plan w w' :
  run_plan E plan w = (Ok tt, w') →
  failed (stats w') = failed (stats w) →
  (∀ t, settled w t →
        (∀ t', t' ∈ targets plan → t'.1.1 = t.1.1 → t'.2 = t.2) →
        settled w' t)
  ∧ (identified plan → ∀ t, t ∈ targets plan → settled w' t)
  ∧ dirs_kept w w'
  ∧ (∀ p, MakeDir p ∈ plan → lookup_node (fs w') p = Some Dir)
  ∧ TooDeep ∉ plan.
Proof.
  revert w. induction plan as [|a plan IH]; intros w.
  - intros [= <-] _. split_and!; try done.
    + intros _ t Ht. by apply elem_of_nil in Ht.
    + intros p Hp. by apply elem_of_nil in Hp.
    + by intros ?%elem_of_nil.
  - intros (w1 & Hstep & Hrest)%run_plan_cons_ok Hfailed.
    pose proof (run_action_failed_grows _ _ _ _ _ Hstep) as Hle1.
    pose proof (run_plan_failed_grows _ _ _ _ _ Hrest) as Hle2.
    unfold failed_grows in Hle1, Hle2.
    destruct (run_action_settles E a w w1 Hstep ltac:(lia))
      as (Hown & Hkeep & Hdirs1 & Hmade & Hshallow).
    destruct (IH w1 Hrest ltac:(lia)) as (Hkeep' & Hall & Hdirs2 & Hmade' & Hshallow').
    assert (∀ t', target a = Some t' → t' ∈ targets (a :: plan)) as Hhead.
    { intros t' Ht'. apply elem_of_targets. exists a.
      split; [apply elem_of_cons; by left|done]. }
    assert (∀ t', t' ∈ targets plan → t' ∈ targets (a :: plan)) as Htail.
    { intros t' (b & ? & ?)%elem_of_targets. apply elem_of_targets. exists b.
      split; [apply elem_of_cons; by right|done]. }
    split_and!.
    + intros t Ht Hsame. apply Hkeep'.
      * apply Hkeep; [done|]. intros t' Ht'. apply Hsame. by apply Hhead.
      * intros t' Ht'. apply Hsame. by apply Htail.
    + intros Hid t (b & Hb & Ht)%elem_of_targets.
      apply elem_of_cons in Hb as [->|Hb].
      * apply Hkeep'; [by apply Hown|].
        intros t' Ht'. apply Hid; [by apply Htail | by apply Hhead].
      * apply Hall; [by eapply identified_cons|].
        apply elem_of_targets. eauto.
    + by etrans.
    + intros p [Hp|Hp]%elem_of_cons.
      * apply Hdirs2. by apply Hmade.
      * by apply Hmade'.
    + intros [?|?]%elem_of_cons; [by subst|done].
Qed.

(** The second run: when every file entry of the plan is settled and every
    directory is there, the traversal returns having touched only the
    statistics and the requests sent. *)
Lemma run_plan_all_settled E plan w :
  (∀ t, t ∈ targets plan → settled w t) →
  (∀ p, MakeDir p ∈ plan → lookup_node (fs w) p = Some Dir) →
  TooDeep ∉ plan →
  run_plan E plan w =
  (Ok tt, World (fs w) (ledger w) (tally plan (stats w))
            (sent w ++ listings plan) (clock w)).
Proof.
  revert w. induction plan as [|a plan IH]; intros w Hsettled Hdirs Hshallow.
  - simpl. rewrite app_nil_r. by destruct w.
  - assert (∀ w1, fs w1 = fs w → ledger w1 = ledger w →
              run_plan E plan w1 =
              (Ok tt, World (fs w) (ledger w) (tally plan (stats w1))
                        (sent w1 ++ listings plan) (clock w1))) as Hrest.
    { intros w1 Hfs Hledger. rewrite <- Hfs, <- Hledger. apply IH.
      - intros t Ht. apply (settled_transfer w); [|done|by rewrite Hfs].
        apply Hsettled. apply elem_of_targets in Ht as (b & ? & ?).
        apply elem_of_targets. exists b. split; [apply elem_of_cons; by right|done].
      - intros p Hp. rewrite Hfs. apply Hdirs. apply elem_of_cons. by right.
      - intros ?. apply Hshallow. apply elem_of_cons. by right. }
    rewrite run_plan_cons. unfold bind.
    destruct a as [p|r| |app_type folder_id local_path item_name note_id update_time|];
      simpl.
    + unfold mkdir. rewrite mkdir_tree_dir by (apply Hdirs; apply elem_of_cons; by left).
      by rewrite Hrest.
    + unfold modify. rewrite Hrest by done. simpl. by rewrite <- app_assoc.
    + unfold bump_folders, modify. by rewrite Hrest.
    + rewrite sync_file_unfold.
      assert (settled w (remote_identifier app_type folder_id note_id
                           (normalized_name item_name), update_time,
                         path_div local_path (normalized_name item_name))) as Hskip.
      { apply Hsettled. apply elem_of_targets. eexists.
        split; [apply elem_of_cons; by left|done]. }
      unfold settled in Hskip. simpl in Hskip. rewrite Hskip. by rewrite Hrest.
    + destruct Hshallow. apply elem_of_cons. by left.
Qed.

Lemma tally_handled plan s s' :
  handled s = handled s' → folders s = folders s' →
  handled (tally plan s) = handled (tally plan s')
  ∧ folders (tally plan s) = folders (tally plan s').
Proof.
  revert s s'. induction plan as [|a plan IH]; intros s s' Hh Hf; [done|].
  destruct a; simpl; apply IH; try done;
    unfold handled in *; simpl; lia.
Qed.

Lemma tally_skipped plan s :
  skipped (tally plan s) = (skipped s + length (targets plan))%nat
  ∧ downloaded (tally plan s) = downloaded s
  ∧ failed (tally plan s) = failed s.
Proof.
  revert s. induction plan as [|a plan IH]; intros s; [simpl; lia|].
  destruct a; simpl; try apply IH.
  - destruct (IH (count_folder s)) as (H1 & H2 & H3). simpl in *. lia.
  - destruct (IH (count_skipped s)) as (H1 & H2 & H3). simpl in *. lia.
Qed.


Lemma tally_cons a plan s : tally (a :: plan) s = tally plan (tally [a] s).
Proof. by destruct a. Qed.

Lemma run_action_counts E a w w' :
  run_action E a w = (Ok tt, w') →
  handled (stats w') = handled (tally [a] (stats w))
  ∧ folders (stats w') = folders (tally [a] (stats w)).
Proof.
  destruct a as [p|r| |app_type folder_id local_path item_name note_id update_time|];
    simpl; [| | | |done].
  - intros Hrun. apply mkdir_fetch_frame in Hrun as (_ & -> & _). done.
  - unfold modify. by intros [= <-].
  - unfold bump_folders, modify. by intros [= <-].
  - intros Hrun.
    destruct (sync_file_outcomes _ _ _ _ _ _ _ _ _ Hrun)
      as [[_ ->]|[[_ (w1 & Hfetch & ->)]|[_ (w1 & row & Hfetch & _ & ->)]]]; [done| |];
      apply download_file_fetch_frame in Hfetch as (_ & Hstats & _);
      simpl; rewrite Hstats; unfold handled; simpl; split; lia.
Qed.

(** Every file entry of a traversal that returns is counted once, as
    skipped, downloaded or failed. *)
Lemma run_plan_counts E plan w w' :
  run_plan E plan w = (Ok tt, w') →
  handled (stats w') = handled (tally plan (stats w))
  ∧ folders (stats w') = folders (tally plan (stats w)).
Proof.
  revert w. induction plan as [|a plan IH]; intros w; [by intros [= <-]|].
  intros (w1 & Hstep & Hrest)%run_plan_cons_ok.
  destruct (run_action_counts _ _ _ _ Hstep) as [Hh Hf].
  destruct (IH _ Hrest) as [-> ->].
  rewrite (tally_cons a plan). by apply tally_handled.
Qed.

Lemma listings_app plan plan' :
  listings (plan ++ plan') = (listings plan ++ listings plan')%list.
Proof.
  induction plan as [|a plan IH]; [done|]. destruct a; simpl; by rewrite ?IH.
Qed.

Lemma listings_flat_map {A} (f : A → list action) (l : list A) :
  (∀ x, Forall is_list_request (listings (f x))) →
  Forall is_list_request (listings (flat_map f l)).
Proof.
  intros Hf. induction l as [|x l IH]; [constructor|].
  simpl. rewrite listings_app. by apply Forall_app.
Qed.

Lemma listings_folder_plan E depth app_type folder_name folder_id local_path :
  Forall is_list_request
    (listings (folder_plan E depth app_type folder_name folder_id local_path)).
Proof.
  revert app_type folder_name folder_id local_path.
  induction depth as [|depth IH]; intros app_type folder_name folder_id local_path;
    [constructor|].
  simpl. constructor; [done|].
  apply listings_flat_map. intros item.
  destruct (or_default false (isFolder item)); simpl; [apply IH|constructor].
Qed.

Lemma listings_full_plan E include_all :
  Forall is_list_request (listings (full_plan E include_all)).
Proof.
  unfold full_plan. simpl. constructor; [done|].
  apply listings_flat_map. intros root_item. unfold root_plan.
  destruct (negb include_all && _); [constructor|apply listings_folder_plan].
Qed.

(** ** The scoped sync follows its plan *)

Lemma split_slash_nonempty s : split_slash s ≠ [].
Proof.
  destruct s as [|c s]; [done|]. simpl.
  case_bool_decide; [done|]. by destruct (split_slash s).
Qed.

Lemma run_plan_listings E rs plan w :
  run_plan E (map Listing rs ++ plan) w =
  run_plan E plan (World (fs w) (ledger w) (stats w) (sent w ++ rs) (clock w)).
Proof.
  revert w. induction rs as [|r rs IH]; intros w.
  - simpl. rewrite app_nil_r. by destruct w.
  - simpl. rewrite run_plan_cons. unfold bind. simpl. unfold modify.
    rewrite IH. simpl. by rewrite <- app_assoc.
Qed.

Lemma navigate_plan E app_type parts current_folder_id current_items w :
  stable_listing E →
  navigate E app_type parts current_folder_id current_items w =
  (Ok (nav_plan E app_type parts current_folder_id current_items).2,
   World (fs w) (ledger w) (stats w)
     (sent w ++ (nav_plan E app_type parts current_folder_id current_items).1)
     (clock w)).
Proof.
  intros Hstable. revert current_folder_id current_items w.
  induction parts as [|folder_name rest IH]; intros current_folder_id current_items w;
    simpl.
  - unfold ret. rewrite app_nil_r. by destruct w.
  - destruct (find_folder current_items folder_name) as [item|]; simpl.
    + unfold bind. rewrite list_folder_unfold, Hstable, IH. simpl.
      by rewrite <- app_assoc.
    + unfold ret. rewrite app_nil_r. by destruct w.
Qed.

Lemma bind_run {A B} (m : M A) (k : A → M B) w a w' :
  m w = (Ok a, w') → bind m k w = k a w'.
Proof. intros Hm. unfold bind. by rewrite Hm. Qed.

Lemma run_plan_listing E r plan w :
  run_plan E (Listing r :: plan) w = run_plan E plan (log_request r w).
Proof. done. Qed.

Lemma sync_folder_plan E folder_path w :
  stable_listing E →
  sync_folder E folder_path w
  = run_plan E (scoped_plan E folder_path) (set_stats (λ _, no_stats) w).
Proof.
  intros Hstable. unfold scoped_plan.
  destruct (split_slash folder_path) as [|root_name rest] eqn:Hparts;
    [by destruct (split_slash_nonempty folder_path)|].
  rewrite (sync_folder_unfold _ _ _ _ _ Hparts).
  rewrite run_plan_listing. fold (after_root_listing w).
  unfold root_items. rewrite Hstable.
  destruct (find_app_type _ root_name) as [app_type|]; [|done].
  case_bool_decide; [done|].
  rewrite run_plan_listing, run_plan_listings.
  erewrite bind_run by apply list_folder_unfold. rewrite Hstable.
  erewrite bind_run by (by apply navigate_plan).
  destruct (nav_plan _ _ _ _ _).2 as [[current_folder_id items]|]; [|done].
  by apply sync_folder_recursive_plan.
Qed.

Lemma listings_map_listing rs plan :
  Forall is_list_request rs →
  Forall is_list_request (listings plan) →
  Forall is_list_request (listings (map Listing rs ++ plan)).
Proof.
  intros Hrs Hplan. induction Hrs as [|r rs Hr _ IH]; [done|].
  simpl. by constructor.
Qed.

Lemma nav_plan_lists E app_type parts current_folder_id current_items :
  Forall is_list_request (nav_plan E app_type parts current_folder_id current_items).1.
Proof.
  revert current_folder_id current_items.
  induction parts as [|folder_name rest IH]; intros current_folder_id current_items;
    simpl; [constructor|].
  destruct (find_folder current_items folder_name) as [item|]; simpl; [|constructor].
  constructor; [done|apply IH].
Qed.

Lemma listings_scoped_plan E folder_path :
  Forall is_list_request (listings (scoped_plan E folder_path)).
Proof.
  unfold scoped_plan.
  destruct (split_slash folder_path) as [|root_name rest]; [constructor|].
  simpl. constructor; [done|].
  destruct (find_app_type _ root_name) as [app_type|]; [|constructor].
  case_bool_decide; [constructor|].
  simpl. constructor; [done|].
  apply listings_map_listing; [apply nav_plan_lists|].
  destruct (nav_plan _ _ _ _ _).2 as [[current_folder_id items]|];
    [apply listings_folder_plan|constructor].
Qed.

(** ** Running the sync twice *)

(** A traversal that returned with no failed fetch, run again from fresh
    statistics in the state it left, skips every file. *)
Lemma run_plan_twice E plan w w1 :
  identified plan →
  Forall is_list_request (listings plan) →
  run_plan E plan (set_stats (λ _, no_stats) w) = (Ok tt, w1) →
  failed (stats w1) = 0%nat →
  second_run_skips_all (λ w, run_plan E plan (set_stats (λ _, no_stats) w)) w1.
Proof.
  intros Hid Hlists Hfirst Hfailed.
  destruct (run_plan_settles E plan _ _ Hfirst Hfailed)
    as (_ & Hall & _ & Hmade & Hshallow).
  destruct (run_plan_counts E plan _ _ Hfirst) as [Hhandled Hfolders].
  destruct (tally_skipped plan no_stats) as (Hsk & Hdl & Hfl).
  simpl in Hhandled, Hfolders.
  eexists. split.
  { apply run_plan_all_settled.
    - intros t Ht. by apply (settled_transfer w1); [apply Hall|..].
    - done.
    - done. }
  unfold handled in Hhandled. simpl in *. split_and!; try done.
  - lia.
  - by exists (listings plan).
Qed.

(** C2 (as amended): on a tablet whose listings do not change, a sync
    (full or scoped) that returns with no failed fetch, followed by the
    same sync from the state it left (no local change), gives a second run
    that returns with zero downloads and zero failures, in which every
    file the first run skipped or downloaded is skipped, provided file
    entries with the same composite remote path have the same mirror path;
    the second run sends listing requests only and leaves the files and
    the ledger as they were. *)
Theorem second_sync_downloads_nothing E :
  stable_listing E →
  (∀ include_all w w1,
     identified (full_plan E include_all) →
     sync_all E include_all w = (Ok tt, w1) →
     failed (stats w1) = 0%nat →
     second_run_skips_all (sync_all E include_all) w1)
  ∧ (∀ folder_path w w1,
     identified (scoped_plan E folder_path) →
     sync_folder E folder_path w = (Ok tt, w1) →
     failed (stats w1) = 0%nat →
     second_run_skips_all (sync_folder E folder_path) w1).
Proof.
  intros Hstable. split.
  - intros include_all w w1 Hid Hfirst Hfailed.
    rewrite sync_all_plan in Hfirst by done.
    destruct (run_plan_twice E _ w w1 Hid (listings_full_plan E include_all)
                Hfirst Hfailed) as (w2 & Hsecond & Hrest).
    exists w2. split; [|done]. by rewrite sync_all_plan.
  - intros folder_path w w1 Hid Hfirst Hfailed.
    rewrite sync_folder_plan in Hfirst by done.
    destruct (run_plan_twice E _ w w1 Hid (listings_scoped_plan E folder_path)
                Hfirst Hfailed) as (w2 & Hsecond & Hrest).
    exists w2. split; [|done]. by rewrite sync_folder_plan.
Qed.

Lemma demo_listing_stable package download :
  stable_listing (demo_device demo_listing package download).
Proof. by intros history r. Qed.

Lemma second_sync_downloads_nothing_witness :
  second_run_skips_all (sync_all steady_device false)
    (sync_all steady_device false empty_world).2.
Proof.
  apply (proj1 (second_sync_downloads_nothing steady_device
                  ltac:(intros history r; reflexivity))
           false empty_world).
  - intros t t' Ht Ht' _.
    change (targets (full_plan steady_device false))
      with [("APP_PAPER//N1/ideas.note", 100%Z, ideas_path)] in Ht, Ht'.
    apply list_elem_of_singleton in Ht, Ht'. by subst.
  - vm_compute. reflexivity.
  - vm_compute. reflexivity.
Defined.

(** The claim C2 as it is stated fails on the tablet [flaky_device], whose
    listings never change but whose first resolve request is refused: the
    first run counts [ideas] as failed and writes no ledger row, so the
    second run, from the state the first one left, downloads it. *)
Lemma failed_fetch_is_retried :
  let w1 := (sync_all flaky_device false empty_world).2 in
  let w2 := (sync_all flaky_device false w1).2 in
  stable_listing flaky_device
  ∧ sync_all flaky_device false empty_world = (Ok tt, w1)
  ∧ stats w1 = SyncStats 0 0 0 1
  ∧ sync_all flaky_device false w1 = (Ok tt, w2)
  ∧ stats w2 = SyncStats 0 1 0 0
  ∧ downloaded (stats w2) ≠ 0%nat.
Proof.
  intros w1 w2. split; [by intros history r|].
  vm_compute. by split_and!.
Qed.

(** Hence zero downloads in the second run do not follow from identical
    listings and an unchanged local state alone. *)
Lemma zero_downloads_need_no_failure :
  ¬ (∀ E include_all w w1 w2,
       stable_listing E →
       sync_all E include_all w = (Ok tt, w1) →
       sync_all E include_all w1 = (Ok tt, w2) →
       downloaded (stats w2) = 0%nat).
Proof.
  intros Hclaim.
  pose (w1 := (sync_all flaky_device false empty_world).2).
  pose (w2 := (sync_all flaky_device false w1).2).
  assert (downloaded (stats w2) = 0%nat) as Hnone.
  { apply (Hclaim flaky_device false empty_world w1 w2).
    - apply demo_listing_stable.
    - vm_compute. reflexivity.
    - vm_compute. reflexivity. }
  vm_compute in Hnone. discriminate.
Qed.

(** The condition on remote paths cannot be dropped either: when two notes
    in different folders share a remote path, each download overwrites the
    update time the other recorded, and a second run downloads again after
    a first run without any failure. *)
Lemma shared_remote_path_is_refetched :
  ¬ (∀ E include_all w w1 w2,
       stable_listing E →
       sync_all E include_all w = (Ok tt, w1) →
       failed (stats w1) = 0%nat →
       sync_all E include_all w1 = (Ok tt, w2) →
       downloaded (stats w2) = 0%nat).
Proof.
  intros Hclaim.
  pose (w1 := (sync_all twin_device false empty_world).2).
  pose (w2 := (sync_all twin_device false w1).2).
  assert (downloaded (stats w2) = 0%nat) as Hnone.
  { apply (Hclaim twin_device false empty_world w1 w2).
    - by intros history r.
    - vm_compute. reflexivity.
    - vm_compute. reflexivity.
    - vm_compute. reflexivity. }
  vm_compute in Hnone. discriminate.
Qed.

(** ** Instances of the properties on the example tablet *)

Lemma skip_iff_recorded_and_present_witness :
  sync_file steady_device "APP_PAPER" "" ["Paper"; "viwoods_sync"] "ideas" "N1" 100
    synced_world
  = (Ok tt, set_stats count_skipped synced_world).
Proof.
  apply (proj1 (proj2 (skip_iff_recorded_and_present steady_device "APP_PAPER" ""
                         ["Paper"; "viwoods_sync"] "ideas" "N1" 100 synced_world))).
  split.
  - eexists. split; [reflexivity|]. simpl. lia.
  - reflexivity.
Defined.


Lemma download_file_catches_everything_witness :
  download_file (demo_device demo_listing unreachable sends_bytes)
    "ideas" "N1" "" "APP_PAPER" ideas_path empty_world
  = (Ok false, log_request (PackageFile "APP_PAPER" "N1" "ideas.note" "") empty_world).
Proof.
  apply (proj1 (download_file_catches_everything
                  (demo_device demo_listing unreachable sends_bytes)
                  "ideas" "N1" "" "APP_PAPER" ideas_path empty_world)
           ConnectionError).
  reflexivity.
Defined.

(** The scenario of the specification: the first run fetches [ideas], the
    second run skips it, and a run after the tablet reports a later update
    time fetches it again. *)
Example first_run_downloads :
  let w1 := (sync_all steady_device false empty_world).2 in
  stats w1 = SyncStats 0 1 0 0
  ∧ fs w1 !! ideas_path = Some (File ["n"; "o"; "t"; "e"]%byte)
  ∧ row_update_time <$> ledger w1 !! "APP_PAPER//N1/ideas.note" = Some 100
  ∧ fs w1 !! ["Learning"; "viwoods_sync"] = None.
Proof. vm_compute. done. Qed.

Example second_run_skips :
  let w1 := (sync_all steady_device false empty_world).2 in
  stats (sync_all steady_device false w1).2 = SyncStats 0 0 1 0.
Proof. vm_compute. done. Qed.

Example later_update_is_fetched :
  let w1 := (sync_all steady_device false empty_world).2 in
  let w := set_stats (λ _, no_stats) w1 in
  stats (sync_file steady_device "APP_PAPER" "" ["Paper"; "viwoods_sync"]
           "ideas" "N1" 150 w).2 = SyncStats 0 1 0 0.
Proof. vm_compute. done. Qed.

Example missing_mirror_is_fetched :
  let w := set_fs (delete ideas_path) synced_world in
  downloaded (stats (sync_file steady_device "APP_PAPER" ""
                       ["Paper"; "viwoods_sync"] "ideas" "N1" 100 w).2) = 1%nat.
Proof. vm_compute. done. Qed.

(** * Further properties of the code *)

(** ** File names *)

Lemma substring_whole s : substring 0 (String.length s) s = s.
Proof. induction s as [|c s IH]; [done|]. simpl. by rewrite IH. Qed.

Lemma substring_skip s t :
  substring (String.length s) (String.length t) (s ++ t) = t.
Proof. induction s as [|c s IH]; simpl; [apply substring_whole|done]. Qed.

Lemma length_string_app s t :
  String.length (s ++ t) = (String.length s + String.length t)%nat.
Proof. induction s as [|c s IH]; simpl; [done|by rewrite IH]. Qed.

Lemma endswith_app s suffix : endswith (s ++ suffix) suffix = true.
Proof.
  unfold endswith. rewrite length_string_app.
  destruct (Nat.leb_spec (String.length suffix) (String.length s + String.length suffix)) as [_|?];
    [|lia].
  replace (String.length s + String.length suffix - String.length suffix)%nat
    with (String.length s) by lia.
  rewrite substring_skip. by apply bool_decide_eq_true_2.
Qed.

(** X6: the normalized file name always ends with [.note]; a name that
    already does is kept, any other gets the extension appended; and
    normalizing twice is normalizing once, so [ideas] and [ideas.note] name
    the same mirror file and the same remote path. *)
Theorem normalized_name_extension item_name :
  endswith (normalized_name item_name) ".note" = true
  ∧ (endswith item_name ".note" = true → normalized_name item_name = item_name)
  ∧ (endswith item_name ".note" = false →
     normalized_name item_name = item_name ++ ".note")
  ∧ normalized_name (normalized_name item_name) = normalized_name item_name.
Proof.
  assert (endswith (normalized_name item_name) ".note" = true) as Hends.
  { unfold normalized_name. destruct (endswith item_name ".note") eqn:Hitem; [done|].
    apply endswith_app. }
  split_and!; [done| | |].
  - unfold normalized_name. by intros ->.
  - unfold normalized_name. by intros ->.
  - unfold normalized_name at 1. by rewrite Hends.
Qed.

Lemma normalized_name_extension_witness :
  normalized_name "ideas" = "ideas" ++ ".note".
Proof.
  apply (proj1 (proj2 (proj2 (normalized_name_extension "ideas")))).
  reflexivity.
Defined.

(** ** The ledger *)

Lemma record_sync_unfold E remote_path note_id update_time file_size local_path w :
  record_sync E remote_path note_id update_time file_size local_path w =
  match lookup_node (fs w) local_path with
  | Some (File content) =>
      let row := SyncRecord note_id update_time (Z.of_nat file_size)
                   (isoformat E (clock w)) (md5_hexdigest E content) in
      if fits_int64 update_time && fits_int64 (Z.of_nat file_size)
      then (Ok tt, set_ledger (insert remote_path row) (tick w))
      else (Raise OverflowError, tick w)
  | Some Dir => (Raise IsADirectoryError, w)
  | None => (Raise FileNotFoundError, w)
  end.
Proof.
  unfold record_sync, calculate_checksum, read_file, datetime_now, insert_or_replace,
    bind, ret, raise, modify.
  destruct (lookup_node (fs w) local_path) as [[content|]|]; simpl; try done.
  by destruct (fits_int64 update_time && fits_int64 (Z.of_nat file_size)).
Qed.

(** X1: when the local file is there and update time and size fit in 64
    bits, [record_sync] returns having written exactly one row, under the
    remote path, with the given note id, update time and size, the time of
    the clock and the digest of the file; a row that was there is replaced,
    the rows of other remote paths are untouched, and a lookup for the
    remote path is then true exactly for update times up to the recorded
    one. *)
Theorem record_sync_then_lookup E remote_path note_id update_time file_size local_path
    w content :
  lookup_node (fs w) local_path = Some (File content) →
  fits_int64 update_time = true →
  fits_int64 (Z.of_nat file_size) = true →
  ∃ w', record_sync E remote_path note_id update_time file_size local_path w = (Ok tt, w')
        ∧ ledger w' !! remote_path
          = Some (SyncRecord note_id update_time (Z.of_nat file_size)
                    (isoformat E (clock w)) (md5_hexdigest E content))
        ∧ (∀ other, other ≠ remote_path → ledger w' !! other = ledger w !! other)
        ∧ (∀ query, is_file_synced remote_path query w'
                    = (Ok (bool_decide (query ≤ update_time)%Z), w'))
        ∧ fs w' = fs w ∧ stats w' = stats w ∧ sent w' = sent w.
Proof.
  intros Hfile Htime Hsize. rewrite record_sync_unfold, Hfile, Htime, Hsize. simpl.
  eexists. split; [done|]. simpl. split_and!; try done.
  - apply lookup_insert_eq.
  - intros other Hother. by apply lookup_insert_ne.
  - intros query. rewrite is_file_synced_unfold. simpl. by rewrite lookup_insert_eq.
Qed.

Lemma record_sync_then_lookup_witness :
  ∃ w', record_sync steady_device "APP_PAPER//N1/ideas.note" "N1" 150 4 ideas_path
          synced_world = (Ok tt, w')
        ∧ ledger w' !! "APP_PAPER//N1/ideas.note"
          = Some (SyncRecord "N1" 150 (Z.of_nat 4)
                    (isoformat steady_device (clock synced_world))
                    (md5_hexdigest steady_device ["n"; "o"; "t"; "e"]%byte))
        ∧ (∀ other, other ≠ "APP_PAPER//N1/ideas.note" →
                    ledger w' !! other = ledger synced_world !! other)
        ∧ (∀ query, is_file_synced "APP_PAPER//N1/ideas.note" query w'
                    = (Ok (bool_decide (query ≤ 150)%Z), w'))
        ∧ fs w' = fs synced_world ∧ stats w' = stats synced_world
        ∧ sent w' = sent synced_world.
Proof.
  apply (record_sync_then_lookup steady_device "APP_PAPER//N1/ideas.note" "N1" 150 4
           ideas_path synced_world ["n"; "o"; "t"; "e"]%byte); reflexivity.
Defined.



(** ** What a fetch writes and sends *)

Lemma write_chunks_run p chunks_left content w :
  fs w !! p = Some (File content) →
  for_each chunks_left
    (λ chunk, match chunk with [] => ret tt | _ => write p chunk end) w
  = (Ok tt, set_fs (insert p (File (content ++ concat chunks_left))) w).
Proof.
  revert content w. induction chunks_left as [|chunk rest IH]; intros content w Hfile.
  - simpl. rewrite app_nil_r. unfold ret, set_fs. rewrite insert_id by done.
    by destruct w.
  - destruct chunk as [|b chunk].
    + simpl. unfold bind at 1. simpl. by apply IH.
    + change (for_each ((b :: chunk) :: rest) _ w)
        with (bind (write p (b :: chunk))
                (λ _, for_each rest
                        (λ chunk, match chunk with [] => ret tt | _ => write p chunk end)) w).
      unfold bind, write. rewrite Hfile.
      rewrite (IH (content ++ b :: chunk)%list) by (simpl; apply lookup_insert_eq).
      unfold set_fs. simpl. rewrite insert_insert_eq.
      by rewrite <- app_assoc.
Qed.

(** The body of the [with] statement appends the chunks in order, then
    raises if the connection broke. *)
Lemma write_stream_run p body content w :
  fs w !! p = Some (File content) →
  write_stream p body w
  = (if broken body then Raise ConnectionError else Ok tt,
     set_fs (insert p (File (content ++ concat (chunks body)))) w).
Proof.
  intros Hfile. unfold write_stream, bind.
  rewrite (write_chunks_run _ _ _ _ Hfile). by destruct (broken body).
Qed.

(** The state in which the transfer of a resolved fetch starts writing. *)
Lemma download_attempt_streams E file_name note_id folder_id app_type local_path
    w file_path body t1 :
  let req := PackageFile app_type note_id file_name folder_id in
  resolved (package_reply E (sent w) req) file_path →
  download_reply E (sent w ++ [req]) (Download file_path) = Reply 200 body →
  mkdir_tree (parent local_path) (fs w) = (Ok tt, t1) →
  lookup_node t1 local_path ≠ Some Dir →
  let w2 := World (<[local_path := File (concat (chunks body))]> t1) (ledger w) (stats w)
              (sent w ++ [req; Download file_path]) (clock w) in
  download_attempt E file_name note_id folder_id app_type local_path w =
  if broken body then (Raise ConnectionError, w2)
  else if bool_decide (concat (chunks body) = [])
       then (Ok false, set_fs (delete local_path) w2)
       else (Ok true, w2).
Proof.
  intros req Hres Hreply Hmk Hdest w2.
  rewrite (download_attempt_resolved _ _ _ _ _ _ _ _ Hres). fold req.
  unfold bind at 1. unfold session_get. simpl. rewrite Hreply. simpl.
  unfold bind at 1. unfold mkdir. simpl. rewrite Hmk.
  destruct local_path as [|c up]; [done|]. simpl in Hmk, Hdest.
  pose proof (mkdir_tree_ok _ _ _ Hmk) as Hup.
  assert (open_wb (c :: up)
            (set_fs (λ _, t1) (log_request (Download file_path) (log_request req w)))
          = (Ok tt,
             World (<[c :: up := File []]> t1) (ledger w) (stats w)
               (sent w ++ [req; Download file_path]) (clock w))) as Hopen.
  { unfold open_wb. simpl. rewrite Hup.
    unfold set_fs. simpl. rewrite <- app_assoc. simpl.
    by destruct (t1 !! (c :: up)) as [[content|]|]. }
  unfold bind at 1. rewrite Hopen.
  unfold bind at 1.
  rewrite (write_stream_run _ body []) by (simpl; apply lookup_insert_eq).
  unfold set_fs. simpl. rewrite insert_insert_eq. fold w2.
  destruct (broken body); [done|].
  unfold bind, st_size. simpl. rewrite lookup_insert_eq.
  destruct (concat (chunks body)) as [|b bytes] eqn:Hbytes; simpl.
  - unfold unlink. simpl. by rewrite lookup_insert_eq.
  - done.
Qed.

Lemma download_file_try E file_name note_id folder_id app_type local_path w :
  download_file E file_name note_id folder_id app_type local_path w =
  match download_attempt E (normalized_name file_name) note_id folder_id app_type
          local_path w with
  | (Ok fetched, w') => (Ok fetched, w')
  | (Raise _, w') => (Ok false, w')
  end.
Proof. done. Qed.

(** X3: when the resolve step succeeds, the transfer answers with status
    200 and its stream ends normally with at least one byte, a fetch into a
    destination that can be opened returns [True]; the destination then
    holds exactly the bytes received, in order, whatever it held before;
    its parent is a directory; and the two requests of the protocol have
    been sent, resolve first. *)
Theorem download_writes_received_bytes E file_name note_id folder_id app_type
    local_path w file_path body :
  let req := resolve_request file_name note_id folder_id app_type in
  resolved (package_reply E (sent w) req) file_path →
  download_reply E (sent w ++ [req]) (Download file_path) = Reply 200 body →
  broken body = false →
  concat (chunks body) ≠ [] →
  writable (fs w) local_path →
  ∃ w', download_file E file_name note_id folder_id app_type local_path w = (Ok true, w')
        ∧ lookup_node (fs w') local_path = Some (File (concat (chunks body)))
        ∧ lookup_node (fs w') (parent local_path) = Some Dir
        ∧ sent w' = (sent w ++ [req; Download file_path])%list
        ∧ ledger w' = ledger w.
Proof.
  intros req Hres Hreply Hbroken Hbytes Hwr.
  destruct (writable_mkdir _ _ Hwr) as (t1 & Hmk & Hdest & Hne).
  rewrite download_file_try.
  rewrite (download_attempt_streams E _ note_id folder_id app_type local_path w
             file_path body t1 Hres Hreply Hmk Hdest).
  rewrite Hbroken, bool_decide_eq_false_2 by done.
  eexists. split; [done|]. simpl.
  destruct local_path as [|c up]; [done|]. simpl.
  split_and!; try done.
  - apply lookup_insert_eq.
  - pose proof (mkdir_tree_ok _ _ _ Hmk) as Hup. simpl in Hup.
    destruct up as [|c' up']; [done|]. simpl in *.
    rewrite lookup_insert_ne; [done|].
    intros Heq. apply (f_equal length) in Heq. simpl in Heq. lia.
Qed.

Lemma download_writes_received_bytes_witness :
  ∃ w', download_file steady_device "ideas" "N1" "" "APP_PAPER" ideas_path empty_world
        = (Ok true, w')
        ∧ lookup_node (fs w') ideas_path
          = Some (File (concat [["n"; "o"]%byte; []; ["t"; "e"]%byte]))
        ∧ lookup_node (fs w') (parent ideas_path) = Some Dir
        ∧ sent w' = (sent empty_world
                     ++ [resolve_request "ideas" "N1" "" "APP_PAPER";
                         Download "/storage/notes/N1.note"])%list
        ∧ ledger w' = ledger empty_world.
Proof.
  apply (download_writes_received_bytes steady_device "ideas" "N1" "" "APP_PAPER"
           ideas_path empty_world "/storage/notes/N1.note"
           (Stream [["n"; "o"]%byte; []; ["t"; "e"]%byte] false)).
  - split; [reflexivity | discriminate].
  - reflexivity.
  - reflexivity.
  - discriminate.
  - split; [reflexivity | discriminate].
Defined.

(** X4: when the connection breaks while the body is streamed, the fetch
    returns [False] and the destination keeps the bytes received before the
    break, even none: the size check and the deletion are not reached.  The
    ledger is untouched. *)
Theorem broken_stream_leaves_partial_file E file_name note_id folder_id app_type
    local_path w file_path body :
  let req := resolve_request file_name note_id folder_id app_type in
  resolved (package_reply E (sent w) req) file_path →
  download_reply E (sent w ++ [req]) (Download file_path) = Reply 200 body →
  broken body = true →
  writable (fs w) local_path →
  ∃ w', download_file E file_name note_id folder_id app_type local_path w = (Ok false, w')
        ∧ lookup_node (fs w') local_path = Some (File (concat (chunks body)))
        ∧ path_exists (fs w') local_path = true
        ∧ ledger w' = ledger w.
Proof.
  intros req Hres Hreply Hbroken Hwr.
  destruct (writable_mkdir _ _ Hwr) as (t1 & Hmk & Hdest & Hne).
  rewrite download_file_try.
  rewrite (download_attempt_streams E _ note_id folder_id app_type local_path w
             file_path body t1 Hres Hreply Hmk Hdest).
  rewrite Hbroken. eexists. split; [done|]. simpl.
  destruct local_path as [|c up]; [done|].
  unfold path_exists. simpl. rewrite lookup_insert_eq.
  by split_and!.
Qed.

Lemma broken_stream_leaves_partial_file_witness :
  ∃ w', download_file (demo_device demo_listing resolves_ok resolves_then_breaks)
          "ideas" "N1" "" "APP_PAPER" ideas_path empty_world = (Ok false, w')
        ∧ lookup_node (fs w') ideas_path = Some (File (concat [["n"; "o"]%byte]))
        ∧ path_exists (fs w') ideas_path = true
        ∧ ledger w' = ledger empty_world.
Proof.
  apply (broken_stream_leaves_partial_file
           (demo_device demo_listing resolves_ok resolves_then_breaks)
           "ideas" "N1" "" "APP_PAPER" ideas_path empty_world "/storage/notes/N1.note"
           (Stream [["n"; "o"]%byte] true)).
  - split; [reflexivity | discriminate].
  - reflexivity.
  - reflexivity.
  - split; [reflexivity | discriminate].
Defined.

#[local] Instance sent_same_preorder : PreOrder sent_same.
Proof.
  split; [done|]. intros w1 w2 w3 H12 H23. unfold sent_same in *. congruence.
Qed.




(** ** The exceptions a sync lets through *)







Lemma mkdir_tree_raises p t e t' :
  mkdir_tree p t = (Raise e, t') →
  (e = FileExistsError ∨ e = NotADirectoryError) ∧ t' = t.
Proof.
  revert e t'. induction p as [|c up IH]; intros e t'; [done|].
  simpl. destruct (t !! (c :: up)) as [[content|]|];
    [intros [= <- <-]; by eauto|done|].
  destruct (lookup_node t up) as [[content|]|];
    [intros [= <- <-]; by eauto|done|].
  destruct (mkdir_tree up t) as [[[]|e1] t1]; [done|].
  intros [= <- <-]. by apply IH.
Qed.










(** ** What a sync never takes away *)

#[local] Instance nothing_lost_preorder : PreOrder nothing_lost.
Proof.
  split.
  - intros w. split_and!; [done|by intros p|reflexivity].
  - intros w1 w2 w3 (Hr1 & Hd1 & Hs1) (Hr2 & Hd2 & Hs2). split_and!.
    + intros k Hk. by apply Hr2, Hr1.
    + by etrans.
    + by etrans.
Qed.

Lemma fs_grows_dirs_kept {A} (m : M A) : keeps fs_grows m → keeps dirs_kept m.
Proof. intros Hm w r w' Hrun p. by apply (Hm _ _ _ Hrun p). Qed.

Lemma unlink_dirs_kept p : keeps dirs_kept (unlink p).
Proof.
  intros w r w'. unfold unlink.
  destruct (lookup_node (fs w) p) as [[content|]|] eqn:Hp; intros [= <- <-]; [|done..].
  intros q Hq. simpl. destruct q as [|c q]; [done|]. simpl in *.
  destruct p as [|c' p']; [done|]. simpl in Hp.
  rewrite lookup_delete_ne; [done|]. intros Heq. rewrite Heq in Hp. congruence.
Qed.

(** Lifts the three parts of [nothing_lost] from a step that leaves the
    ledger alone. *)
Lemma nothing_lost_step {A} (m : M A) :
  keeps fetch_frame m → keeps dirs_kept m → keeps sent_grows m → keeps nothing_lost m.
Proof.
  intros Hframe Hdirs Hsent w r w' Hrun.
  destruct (Hframe _ _ _ Hrun) as (Hledger & _). split_and!.
  - intros k. by rewrite Hledger.
  - by eapply Hdirs.
  - by eapply Hsent.
Qed.

(** Closes a [dirs_kept] goal about a step that leaves the files alone. *)
Ltac dirs_prim :=
  first [ apply fs_grows_dirs_kept, mkdir_fs_grows
        | apply fs_grows_dirs_kept, open_wb_fs_grows
        | apply fs_grows_dirs_kept, write_fs_grows
        | apply unlink_dirs_kept
        | let w := fresh "w" in let r := fresh "r" in let w' := fresh "w'" in
          let H := fresh "H" in
          intros w r w' H;
          unfold bump_folders, bump_downloaded, bump_skipped, bump_failed,
            insert_or_replace in H;
          unfold session_get, response_json, get_code, get_data, st_size, read_file,
            datetime_now, modify, raise, ret in H;
          repeat case_match; simplify_eq; by intros ? ? ].

Lemma download_file_dirs_kept E file_name note_id folder_id app_type local_path :
  keeps dirs_kept (download_file E file_name note_id folder_id app_type local_path).
Proof.
  unfold download_file, download_attempt, write_stream. keeps_struct; dirs_prim.
Qed.

Lemma download_file_nothing_lost E file_name note_id folder_id app_type local_path :
  keeps nothing_lost (download_file E file_name note_id folder_id app_type local_path).
Proof.
  apply nothing_lost_step;
    [apply download_file_fetch_frame | apply download_file_dirs_kept
    | apply download_file_sent_grows].
Qed.

Lemma mkdir_nothing_lost p : keeps nothing_lost (mkdir p).
Proof.
  apply nothing_lost_step;
    [apply mkdir_fetch_frame | apply fs_grows_dirs_kept, mkdir_fs_grows | keeps_prim].
Qed.

Lemma list_folder_nothing_lost E app_type folder_name folder_id :
  keeps nothing_lost (list_folder E app_type folder_name folder_id).
Proof.
  intros w r w'. rewrite list_folder_unfold. intros [= <- <-].
  split_and!; [done|by intros p|apply sent_grows_log].
Qed.

Lemma record_sync_nothing_lost E remote_path note_id update_time file_size local_path :
  keeps nothing_lost (record_sync E remote_path note_id update_time file_size local_path).
Proof.
  intros w r w'. rewrite record_sync_unfold.
  destruct (lookup_node (fs w) local_path) as [[content|]|];
    [destruct (_ && _)|..]; intros [= <- <-];
    (split_and!; [|by intros p|by exists []; simpl; rewrite app_nil_r]);
    try done.
  intros k Hk. simpl. apply lookup_insert_is_Some'. by right.
Qed.

Lemma stats_nothing_lost f : keeps nothing_lost (modify (set_stats f)).
Proof.
  intros w r w' [= <- <-].
  split_and!; [done|by intros p|by exists []; simpl; rewrite app_nil_r].
Qed.

Lemma sync_file_nothing_lost E app_type folder_id local_path item_name note_id
    update_time :
  keeps nothing_lost
    (sync_file E app_type folder_id local_path item_name note_id update_time).
Proof.
  unfold sync_file, is_file_synced.
  keeps_struct;
    first [ apply download_file_nothing_lost | apply record_sync_nothing_lost
          | apply stats_nothing_lost
          | apply st_size_keeps; apply _ ].
Qed.

Lemma sync_folder_recursive_nothing_lost E depth app_type folder_name folder_id
    local_path path_stack :
  keeps nothing_lost
    (sync_folder_recursive E depth app_type folder_name folder_id local_path path_stack).
Proof.
  revert app_type folder_name folder_id local_path path_stack.
  induction depth as [|depth IH];
    intros app_type folder_name folder_id local_path path_stack; simpl.
  - apply keeps_raise. apply _.
  - apply keeps_bind; [apply _|apply mkdir_nothing_lost|]. intros _.
    apply keeps_bind; [apply _|apply list_folder_nothing_lost|]. intros items.
    apply keeps_for_each; [apply _|]. intros item.
    destruct (or_default false (isFolder item)).
    + apply keeps_bind; [apply _|apply stats_nothing_lost|]. intros _. apply IH.
    + apply sync_file_nothing_lost.
Qed.

Lemma navigate_nothing_lost E app_type parts current_folder_id current_items :
  keeps nothing_lost (navigate E app_type parts current_folder_id current_items).
Proof.
  revert current_folder_id current_items.
  induction parts as [|folder_name rest IH]; intros current_folder_id current_items; simpl.
  - apply keeps_ret. apply _.
  - destruct (find_folder current_items folder_name) as [item|];
      [|apply keeps_ret; apply _].
    apply keeps_bind; [apply _|apply list_folder_nothing_lost|]. intros items. apply IH.
Qed.

(** X9: whatever a full or a scoped sync does, and whether it returns or
    raises, every remote path that had a ledger row still has one (rows are
    replaced, never deleted), every local directory is still a directory,
    and the requests already sent are a prefix of the requests sent. *)
Theorem sync_loses_nothing E w r w' :
  (∀ include_all, sync_all E include_all w = (r, w') → nothing_lost w w')
  ∧ (∀ folder_path, sync_folder E folder_path w = (r, w') → nothing_lost w w').
Proof.
  split.
  - intros include_all. revert w r w'.
    change (keeps nothing_lost (sync_all E include_all)).
    unfold sync_all.
    apply keeps_bind; [apply _|apply stats_nothing_lost|]. intros _.
    apply keeps_bind; [apply _|apply list_folder_nothing_lost|]. intros items.
    apply keeps_for_each; [apply _|]. intros root_item. unfold sync_root_item.
    destruct (negb include_all && _); [apply keeps_ret; apply _|].
    apply sync_folder_recursive_nothing_lost.
  - intros folder_path. revert w r w'.
    change (keeps nothing_lost (sync_folder E folder_path)).
    unfold sync_folder.
    destruct (split_slash folder_path) as [|root_name rest]; [apply keeps_ret; apply _|].
    apply keeps_bind; [apply _|apply stats_nothing_lost|]. intros _.
    apply keeps_bind; [apply _|apply list_folder_nothing_lost|]. intros items.
    destruct (negb _); [apply keeps_ret; apply _|].
    apply keeps_bind; [apply _|apply list_folder_nothing_lost|]. intros first_items.
    apply keeps_bind; [apply _|apply navigate_nothing_lost|].
    intros [[current_folder_id reached_items]|]; [|apply keeps_ret; apply _].
    apply sync_folder_recursive_nothing_lost.
Qed.

Lemma sync_loses_nothing_witness :
  nothing_lost synced_world (sync_all flaky_device false synced_world).2.
Proof.
  apply (proj1 (sync_loses_nothing flaky_device synced_world
                  (sync_all flaky_device false synced_world).1
                  (sync_all flaky_device false synced_world).2) false).
  apply surjective_pairing.
Defined.

(** ** Visiting a folder *)

Lemma tally_folders plan s :
  folders (tally plan s) = (folders s + folder_steps plan)%nat.
Proof.
  revert s. induction plan as [|a plan IH]; intros s; [simpl; lia|].
  destruct a; simpl; rewrite IH; simpl; lia.
Qed.

Lemma run_plan_accounts E plan w w1 :
  run_plan E plan (set_stats (λ _, no_stats) w) = (Ok tt, w1) →
  (skipped (stats w1) + downloaded (stats w1) + failed (stats w1))%nat
  = length (targets plan)
  ∧ folders (stats w1) = folder_steps plan.
Proof.
  intros Hrun.
  destruct (run_plan_counts E plan _ _ Hrun) as [Hhandled Hfolders].
  destruct (tally_skipped plan no_stats) as (Hsk & Hdl & Hfl).
  simpl in Hhandled, Hfolders. rewrite tally_folders in Hfolders.
  unfold handled in Hhandled. simpl in *. lia.
Qed.

(** X8: on a tablet whose listings do not change, a full or a scoped sync
    that returns has counted every file entry it visited exactly once, as
    skipped, downloaded or failed, and every sub-folder it entered once in
    the folders counter; the top-level folders of a full sync and the
    folders of the path of a scoped sync are not counted. *)
Theorem sync_counts_every_entry E :
  stable_listing E →
  (∀ include_all w w1,
     sync_all E include_all w = (Ok tt, w1) →
     (skipped (stats w1) + downloaded (stats w1) + failed (stats w1))%nat
     = length (targets (full_plan E include_all))
     ∧ folders (stats w1) = folder_steps (full_plan E include_all))
  ∧ (∀ folder_path w w1,
     sync_folder E folder_path w = (Ok tt, w1) →
     (skipped (stats w1) + downloaded (stats w1) + failed (stats w1))%nat
     = length (targets (scoped_plan E folder_path))
     ∧ folders (stats w1) = folder_steps (scoped_plan E folder_path)).
Proof.
  intros Hstable. split.
  - intros include_all w w1 Hrun. rewrite sync_all_plan in Hrun by done.
    by apply run_plan_accounts in Hrun.
  - intros folder_path w w1 Hrun. rewrite sync_folder_plan in Hrun by done.
    by apply run_plan_accounts in Hrun.
Qed.

Lemma sync_counts_every_entry_witness :
  let w1 := (sync_all twin_device false empty_world).2 in
  (skipped (stats w1) + downloaded (stats w1) + failed (stats w1))%nat
  = length (targets (full_plan twin_device false))
  ∧ folders (stats w1) = folder_steps (full_plan twin_device false).
Proof.
  intros w1.
  apply (proj1 (sync_counts_every_entry twin_device
                  ltac:(intros history r; reflexivity))
           false empty_world w1).
  vm_compute. reflexivity.
Defined.

Lemma set_fs_same w : set_fs (λ _, fs w) w = w.
Proof. by destruct w. Qed.

(** X10: [sync_folder_recursive] makes the local directory before it asks
    for the listing.  When a file stands in the way, it raises the error of
    [mkdir] with the state untouched and no request sent.  When the
    directory can be made and the listing fails or is empty, it returns
    with the directory made, the one listing request sent, and nothing
    else changed: the subtree is silently left out, and an empty remote
    folder still gets its local directory. *)
Theorem folder_visit_without_items E depth app_type folder_name folder_id local_path
    path_stack w :
  let req := list_request app_type folder_name (Some folder_id) in
  let answer := list_reply E (sent w) req in
  (∀ e, (mkdir_tree local_path (fs w)).1 = Raise e →
        sync_folder_recursive E (S depth) app_type folder_name folder_id local_path
          path_stack w = (Raise e, w)
        ∧ (e = FileExistsError ∨ e = NotADirectoryError))
  ∧ (∀ t1, mkdir_tree local_path (fs w) = (Ok tt, t1) →
           answer_fault answer ∨ listed answer = [] →
           sync_folder_recursive E (S depth) app_type folder_name folder_id local_path
             path_stack w
           = (Ok tt, log_request req (set_fs (λ _, t1) w))
           ∧ lookup_node t1 local_path = Some Dir).
Proof.
  intros req answer. split.
  - intros e Hmk. destruct (mkdir_tree local_path (fs w)) as [r t'] eqn:Hrun.
    simpl in Hmk. subst r.
    destruct (mkdir_tree_raises _ _ _ _ Hrun) as [He ->].
    simpl. unfold bind, mkdir. rewrite Hrun. by rewrite set_fs_same.
  - intros t1 Hmk Hnone.
    assert (listed answer = []) as Hitems.
    { destruct Hnone as [Hfault|Hempty]; [by apply listed_fault|done]. }
    split; [|by apply (mkdir_tree_ok _ _ _ Hmk)].
    simpl. unfold bind at 1. unfold mkdir at 1. rewrite Hmk.
    unfold bind at 1. rewrite list_folder_unfold. simpl. fold req answer.
    by rewrite Hitems.
Qed.

Lemma folder_visit_without_items_witness :
  sync_folder_recursive steady_device 1 "APP_PAPER" "Paper" "" ["Paper"; "viwoods_sync"]
    ["Paper"] blocked_world = (Raise FileExistsError, blocked_world)
  ∧ (FileExistsError = FileExistsError ∨ FileExistsError = NotADirectoryError).
Proof.
  apply (proj1 (folder_visit_without_items steady_device 0 "APP_PAPER" "Paper" ""
                  ["Paper"; "viwoods_sync"] ["Paper"] blocked_world) FileExistsError).
  reflexivity.
Defined.

(** ** The root of a scoped sync *)

Lemma find_app_type_first root_name before item after :
  Forall (λ i, fileName i ≠ Some root_name) before →
  fileName item = Some root_name →
  find_app_type (before ++ item :: after) root_name = appType item.
Proof.
  intros Hbefore Hitem. unfold find_app_type.
  induction Hbefore as [|i before Hi _ IH]; simpl.
  - by rewrite bool_decide_eq_true_2.
  - by rewrite bool_decide_eq_false_2.
Qed.

(** X11: the scoped sync takes the container type from the first top-level
    entry with the wanted name and looks no further.  When that entry has
    no [appType], or an empty one, the scoped sync returns after the root
    listing alone, exactly as if the name had not been found, even when a
    later entry with the same name has a container type. *)
Theorem scoped_sync_needs_app_type E folder_path w root_name rest before item after :
  split_slash folder_path = root_name :: rest →
  root_items E w = (before ++ item :: after)%list →
  Forall (λ i, fileName i ≠ Some root_name) before →
  fileName item = Some root_name →
  truthy_str (appType item) = false →
  sync_folder E folder_path w = (Ok tt, after_root_listing w).
Proof.
  intros Hparts Hitems Hbefore Hitem Htype.
  rewrite (sync_folder_unfold _ _ _ _ _ Hparts), Hitems.
  rewrite (find_app_type_first _ _ _ _ Hbefore Hitem).
  destruct (appType item) as [app_type|]; [|done].
  simpl in Htype. apply negb_false_iff, bool_decide_eq_true in Htype.
  by rewrite bool_decide_eq_true_2.
Qed.

Lemma scoped_sync_needs_app_type_witness :
  sync_folder untyped_device "Paper/Drafts" empty_world
  = (Ok tt, after_root_listing empty_world).
Proof.
  apply (scoped_sync_needs_app_type untyped_device "Paper/Drafts" empty_world
           "Paper" ["Drafts"] [learning_entry] untyped_paper_entry [paper_entry]).
  - reflexivity.
  - reflexivity.
  - constructor; [discriminate|constructor].
  - reflexivity.
  - reflexivity.
Defined.

(** ** The command line *)

Lemma mkdir_single_raises p w e w' :
  mkdir_single p w = (Raise e, w') →
  w' = w
  ∧ ((e = FileExistsError ∧ ∃ content, lookup_node (fs w) p = Some (File content))
     ∨ (e = NotADirectoryError ∧ lookup_node (fs w) p = None
        ∧ ∃ content, lookup_node (fs w) (parent p) = Some (File content))
     ∨ (e = FileNotFoundError ∧ lookup_node (fs w) p = None
        ∧ lookup_node (fs w) (parent p) = None)).
Proof.
  unfold mkdir_single.
  destruct (lookup_node (fs w) p) as [[content|]|]; [|done|].
  - intros [= <- <-]. split; [done|]. left. eauto.
  - destruct (lookup_node (fs w) (parent p)) as [[content|]|]; [|done|].
    + intros [= <- <-]. split; [done|]. right. left. eauto.
    + intros [= <- <-]. split; [done|]. right. right. eauto.
Qed.

(** What [main] does once the constructor has returned. *)
Lemma main_run E args w w0 :
  mkdir_single (local_dir E) w = (Ok tt, w0) →
  main E args w =
  (if truthy_str (arg_folder args)
   then sync_folder E (or_default "" (arg_folder args))
   else sync_all E (arg_all args))
    (if arg_force args then set_ledger (λ _, ∅) w0 else w0).
Proof.
  intros Hdir. unfold main, construct, init_database, unlink_database.
  unfold bind at 1. unfold bind at 1. rewrite Hdir. simpl.
  unfold bind at 1. by destruct (arg_force args).
Qed.

(** X13: the constructor makes the output directory without its parents.
    When the output path is an existing file, or is missing below a missing
    parent or below a file, [main] raises the error of that [mkdir]
    ([FileExistsError], [FileNotFoundError], [NotADirectoryError]) before
    anything else happens: the state is untouched, the ledger is not reset
    even with the force flag, and no request is sent. *)
Theorem main_needs_output_directory E args w e :
  (mkdir_single (local_dir E) w).1 = Raise e →
  main E args w = (Raise e, w)
  ∧ ((e = FileExistsError
      ∧ ∃ content, lookup_node (fs w) (local_dir E) = Some (File content))
     ∨ (e = NotADirectoryError ∧ lookup_node (fs w) (local_dir E) = None
        ∧ ∃ content, lookup_node (fs w) (parent (local_dir E)) = Some (File content))
     ∨ (e = FileNotFoundError ∧ lookup_node (fs w) (local_dir E) = None
        ∧ lookup_node (fs w) (parent (local_dir E)) = None)).
Proof.
  intros Hdir.
  destruct (mkdir_single (local_dir E) w) as [r w1] eqn:Hrun. simpl in Hdir. subst r.
  destruct (mkdir_single_raises _ _ _ _ Hrun) as [-> Hwhy].
  split; [|done].
  unfold main, construct. unfold bind at 1. unfold bind at 1. by rewrite Hrun.
Qed.

Lemma main_needs_output_directory_witness :
  main nested_device (Arguments None false true) empty_world
  = (Raise FileNotFoundError, empty_world)
  ∧ ((FileNotFoundError = FileExistsError
      ∧ ∃ content, lookup_node (fs empty_world) (local_dir nested_device)
                   = Some (File content))
     ∨ (FileNotFoundError = NotADirectoryError
        ∧ lookup_node (fs empty_world) (local_dir nested_device) = None
        ∧ ∃ content, lookup_node (fs empty_world) (parent (local_dir nested_device))
                     = Some (File content))
     ∨ (FileNotFoundError = FileNotFoundError
        ∧ lookup_node (fs empty_world) (local_dir nested_device) = None
        ∧ lookup_node (fs empty_world) (parent (local_dir nested_device)) = None)).
Proof.
  apply (main_needs_output_directory nested_device (Arguments None false true)
           empty_world FileNotFoundError).
  reflexivity.
Defined.

(** ** A forced sync *)

#[local] Instance skipped_same_preorder : PreOrder skipped_same.
Proof.
  split; [done|]. intros w1 w2 w3 H12 H23. unfold skipped_same in *. congruence.
Qed.

#[local] Instance ledger_but_preorder remote_path : PreOrder (ledger_but remote_path).
Proof.
  split; [done|].
  intros w1 w2 w3 H12 H23 other Hother. by rewrite H23, H12.
Qed.

Lemma keeps_weaken {A} (R R' : relation world) (m : M A) :
  (∀ w w', R w w' → R' w w') → keeps R m → keeps R' m.
Proof. intros Himpl Hm w r w' Hrun. by eapply Himpl, Hm. Qed.

(** Closes a frame goal about the bookkeeping after a fetch. *)
Ltac tail_prim :=
  let w := fresh "w" in let r := fresh "r" in let w' := fresh "w'" in
  let H := fresh "H" in
  intros w r w' H;
  unfold bump_folders, bump_downloaded, bump_skipped, bump_failed,
    insert_or_replace in H;
  unfold st_size, read_file, datetime_now, modify, raise, ret in H;
  repeat case_match; simplify_eq;
  first [ done | by intros ? ? | by (intros ? ?; simpl; rewrite lookup_insert_ne) ].

(** A file that is not up to date is never counted as skipped, and its
    handling writes to the ledger under its own remote path only. *)
Lemma sync_file_fetch_frame E app_type folder_id local_path item_name note_id
    update_time w r w' :
  let file_name := normalized_name item_name in
  let remote_path := remote_identifier app_type folder_id note_id file_name in
  up_to_date w remote_path update_time (path_div local_path file_name) = false →
  sync_file E app_type folder_id local_path item_name note_id update_time w = (r, w') →
  skipped_same w w' ∧ ledger_but remote_path w w'.
Proof.
  intros file_name remote_path Hstale. rewrite sync_file_unfold.
  fold file_name remote_path. rewrite Hstale.
  intros Hrun. split; revert Hrun.
  - apply keeps_bind; [apply _| |].
    + apply (keeps_weaken fetch_frame); [|apply download_file_fetch_frame].
      intros w1 w2 (_ & Hstats & _). unfold skipped_same. by rewrite Hstats.
    + intros fetched. unfold record_sync, calculate_checksum.
      keeps_struct; tail_prim.
  - apply keeps_bind; [apply _| |].
    + apply (keeps_weaken fetch_frame); [|apply download_file_fetch_frame].
      intros w1 w2 (Hledger & _) other _. by rewrite Hledger.
    + intros fetched. unfold record_sync, calculate_checksum.
      keeps_struct; tail_prim.
Qed.

Lemma up_to_date_no_row w remote_path update_time local_file :
  ledger w !! remote_path = None →
  up_to_date w remote_path update_time local_file = false.
Proof. unfold up_to_date. by intros ->. Qed.

(** A traversal that starts with no ledger row for any of its file entries,
    all of different remote paths, skips none of them. *)
Lemma run_plan_fresh E plan w r w' :
  NoDup (remote_paths plan) →
  (∀ remote_path, remote_path ∈ remote_paths plan → ledger w !! remote_path = None) →
  run_plan E plan w = (r, w') →
  skipped (stats w') = skipped (stats w).
Proof.
  revert w. induction plan as [|a plan IH]; intros w Hdistinct Hfresh;
    [by intros [= _ <-]|].
  rewrite run_plan_cons. unfold bind.
  destruct (run_action E a w) as [r1 w1] eqn:Hstep.
  assert (skipped (stats w1) = skipped (stats w)
          ∧ NoDup (remote_paths plan)
          ∧ ∀ remote_path, remote_path ∈ remote_paths plan →
                           ledger w1 !! remote_path = None) as (Hsk & Hdistinct' & Hfresh').
  { destruct a as [p|req| |app_type folder_id local_path item_name note_id update_time|];
      simpl in Hstep.
    - apply mkdir_fetch_frame in Hstep as (Hledger & Hstats & _).
      rewrite Hledger, Hstats. by split_and!.
    - injection Hstep as _ <-. by split_and!.
    - injection Hstep as _ <-. by split_and!.
    - unfold remote_paths, targets in Hdistinct, Hfresh. simpl in Hdistinct, Hfresh.
      apply NoDup_cons in Hdistinct as [Hnew Hdistinct].
      eapply sync_file_fetch_frame in Hstep as [Hsk Hbut];
        [|apply up_to_date_no_row, Hfresh, elem_of_cons; by left].
      split_and!; [done..|].
      intros remote_path Hin. rewrite Hbut.
      + apply Hfresh, elem_of_cons. by right.
      + intros ->. done.
    - injection Hstep as _ <-. by split_and!. }
  destruct r1 as [[]|e].
  - intros Hrest. rewrite <- Hsk. by apply (IH w1).
  - by intros [= _ <-].
Qed.

(** X14: with the force flag, [main] empties the ledger before it syncs.
    On a tablet whose listings do not change and whose file entries have
    pairwise different remote paths, a forced run, full or scoped, whose
    output directory can be made counts no file as skipped, however it
    ends and whatever the ledger and the local files were: every file
    entry it reaches is fetched again. *)
Theorem forced_sync_skips_nothing E args w r w' :
  arg_force args = true →
  stable_listing E →
  NoDup (remote_paths (plan_of E args)) →
  (mkdir_single (local_dir E) w).1 = Ok tt →
  main E args w = (r, w') →
  skipped (stats w') = 0%nat.
Proof.
  intros Hforce Hstable Hdistinct Hdir.
  destruct (mkdir_single (local_dir E) w) as [r0 w0] eqn:Hmk. simpl in Hdir. subst r0.
  rewrite (main_run _ _ _ _ Hmk), Hforce.
  unfold plan_of in Hdistinct.
  destruct (truthy_str (arg_folder args)).
  - rewrite sync_folder_plan by done. intros Hrun.
    by apply run_plan_fresh in Hrun.
  - rewrite sync_all_plan by done. intros Hrun.
    by apply run_plan_fresh in Hrun.
Qed.

Lemma forced_sync_skips_nothing_witness :
  skipped (stats (main steady_device (Arguments None false true) synced_world).2) = 0%nat.
Proof.
  apply (forced_sync_skips_nothing steady_device (Arguments None false true)
           synced_world
           (main steady_device (Arguments None false true) synced_world).1).
  - reflexivity.
  - intros history r. reflexivity.
  - change (NoDup ["APP_PAPER//N1/ideas.note"]). apply NoDup_singleton.
  - reflexivity.
  - apply surjective_pairing.
Defined.

(** Without the force flag the same run skips the note it has. *)
Example unforced_sync_skips :
  stats (main steady_device (Arguments None false false) synced_world).2
  = SyncStats 0 0 1 0
  ∧ stats (main steady_device (Arguments None false true) synced_world).2
    = SyncStats 0 1 0 0.
Proof. vm_compute. done. Qed.

(** ** A fetch and its record *)

Lemma lookup_node_insert_eq t p n : p ≠ [] → lookup_node (<[p := n]> t) p = Some n.
Proof. intros Hp. rewrite lookup_node_insert by done. by rewrite decide_True. Qed.

(** X12: when a file entry is not up to date, its resolve step succeeds,
    its transfer streams at least one byte to the end, the mirror path can
    be opened, and update time and byte count fit in 64 bits, [sync_file]
    returns with the mirror file holding the bytes received, one download
    counted, and a ledger row under the remote path holding the entry's
    note id and update time, the number of bytes received and their digest;
    the entry is then up to date, so handling it again is a skip. *)
Theorem fetched_file_is_recorded E app_type folder_id local_path item_name note_id
    update_time w file_path body :
  let file_name := normalized_name item_name in
  let local_file_path := path_div local_path file_name in
  let remote_path := remote_identifier app_type folder_id note_id file_name in
  let req := resolve_request item_name note_id folder_id app_type in
  let bytes := concat (chunks body) in
  up_to_date w remote_path update_time local_file_path = false →
  resolved (package_reply E (sent w) req) file_path →
  download_reply E (sent w ++ [req]) (Download file_path) = Reply 200 body →
  broken body = false →
  bytes ≠ [] →
  writable (fs w) local_file_path →
  fits_int64 update_time = true →
  fits_int64 (Z.of_nat (length bytes)) = true →
  ∃ w', sync_file E app_type folder_id local_path item_name note_id update_time w
        = (Ok tt, w')
        ∧ lookup_node (fs w') local_file_path = Some (File bytes)
        ∧ ledger w' !! remote_path
          = Some (SyncRecord note_id update_time (Z.of_nat (length bytes))
                    (isoformat E (clock w)) (md5_hexdigest E bytes))
        ∧ stats w' = count_downloaded (stats w)
        ∧ up_to_date w' remote_path update_time local_file_path = true.
Proof.
  intros file_name local_file_path remote_path req bytes
    Hstale Hres Hreply Hbroken Hbytes Hwr Htime Hsize.
  destruct (writable_mkdir _ _ Hwr) as (t1 & Hmk & Hdest & Hne).
  rewrite sync_file_unfold. fold file_name local_file_path remote_path.
  rewrite Hstale. unfold bind at 1. rewrite download_file_try.
  rewrite (download_attempt_streams E _ note_id folder_id app_type local_file_path w
             file_path body t1 Hres Hreply Hmk Hdest).
  fold bytes. rewrite Hbroken, bool_decide_eq_false_2 by done.
  unfold bind at 1. unfold st_size. simpl.
  rewrite lookup_node_insert_eq by done.
  unfold bind at 1. rewrite record_sync_unfold. simpl.
  rewrite lookup_node_insert_eq by done. simpl. rewrite Htime, Hsize. simpl.
  eexists. split; [done|]. simpl. split_and!; [| |done|].
  - by apply lookup_node_insert_eq.
  - apply lookup_insert_eq.
  - unfold up_to_date, path_exists. simpl.
    rewrite lookup_insert_eq, lookup_node_insert_eq by done. simpl.
    apply andb_true_iff.
    split; try done; apply bool_decide_eq_true_2; first [lia | by eauto].
Qed.

Lemma fetched_file_is_recorded_witness :
  ∃ w', sync_file steady_device "APP_PAPER" "" ["Paper"; "viwoods_sync"] "ideas" "N1" 100
          empty_world = (Ok tt, w')
        ∧ lookup_node (fs w') ideas_path = Some (File ["n"; "o"; "t"; "e"]%byte)
        ∧ ledger w' !! "APP_PAPER//N1/ideas.note"
          = Some (SyncRecord "N1" 100 4 "2025-01-01T12:00:00"
                    "d41d8cd98f00b204e9800998ecf8427e")
        ∧ stats w' = count_downloaded (stats empty_world)
        ∧ up_to_date w' "APP_PAPER//N1/ideas.note" 100 ideas_path = true.
Proof.
  apply (fetched_file_is_recorded steady_device "APP_PAPER" "" ["Paper"; "viwoods_sync"]
           "ideas" "N1" 100 empty_world "/storage/notes/N1.note"
           (Stream [["n"; "o"]%byte; []; ["t"; "e"]%byte] false)).
  - reflexivity.
  - split; [reflexivity | discriminate].
  - reflexivity.
  - reflexivity.
  - discriminate.
  - split; [reflexivity | discriminate].
  - reflexivity.
  - reflexivity.
Defined.

(** X16: a truncated file can pass for a synced one.  When the ledger has
    a current row for an entry whose mirror file is missing, and the
    re-fetch resolves but its stream breaks, [sync_file] counts a failure
    and leaves the bytes received so far at the mirror path; since the row
    is current and the path now exists, handling the entry again, on any
    tablet, is a skip: the partial file stays. *)
Theorem truncated_file_is_skipped_next E app_type folder_id local_path item_name note_id
    update_time w file_path body row :
  let file_name := normalized_name item_name in
  let local_file_path := path_div local_path file_name in
  let remote_path := remote_identifier app_type folder_id note_id file_name in
  let req := resolve_request item_name note_id folder_id app_type in
  ledger w !! remote_path = Some row →
  (update_time ≤ row_update_time row)%Z →
  lookup_node (fs w) local_file_path = None →
  (mkdir_tree (parent local_file_path) (fs w)).1 = Ok tt →
  resolved (package_reply E (sent w) req) file_path →
  download_reply E (sent w ++ [req]) (Download file_path) = Reply 200 body →
  broken body = true →
  ∃ w', sync_file E app_type folder_id local_path item_name note_id update_time w
        = (Ok tt, w')
        ∧ stats w' = count_failed (stats w)
        ∧ lookup_node (fs w') local_file_path = Some (File (concat (chunks body)))
        ∧ ledger w' = ledger w
        ∧ ∀ E', sync_file E' app_type folder_id local_path item_name note_id update_time w'
                = (Ok tt, set_stats count_skipped w').
Proof.
  intros file_name local_file_path remote_path req
    Hrow Hle Hmissing Hparent Hres Hreply Hbroken.
  assert (writable (fs w) local_file_path) as Hwr.
  { split; [done|]. by rewrite Hmissing. }
  destruct (writable_mkdir _ _ Hwr) as (t1 & Hmk & Hdest & Hne).
  rewrite sync_file_unfold. fold file_name local_file_path remote_path.
  assert (up_to_date w remote_path update_time local_file_path = false) as ->.
  { unfold up_to_date, path_exists. rewrite Hmissing.
    rewrite (bool_decide_eq_false_2 (is_Some None)) by (by intros [? ?]).
    apply andb_false_r. }
  unfold bind at 1. rewrite download_file_try.
  rewrite (download_attempt_streams E _ note_id folder_id app_type local_file_path w
             file_path body t1 Hres Hreply Hmk Hdest).
  rewrite Hbroken. simpl.
  eexists. split; [done|]. simpl. split_and!; [done| |done|].
  - by apply lookup_node_insert_eq.
  - intros E'. rewrite sync_file_unfold. fold file_name local_file_path remote_path.
    lazymatch goal with
    | |- (if up_to_date ?w0 _ _ _ then _ else _) = _ =>
        assert (up_to_date w0 remote_path update_time local_file_path = true) as Hskip
    end.
    { unfold up_to_date, path_exists. simpl.
      rewrite Hrow, lookup_node_insert_eq by done.
      apply andb_true_iff.
      split; try done; apply bool_decide_eq_true_2; first [done | by eauto]. }
    by rewrite Hskip.
Qed.

Lemma truncated_file_is_skipped_next_witness :
  let E := demo_device demo_listing resolves_ok resolves_then_breaks in
  let w := set_fs (delete ideas_path) synced_world in
  ∃ w', sync_file E "APP_PAPER" "" ["Paper"; "viwoods_sync"] "ideas" "N1" 100 w
        = (Ok tt, w')
        ∧ stats w' = count_failed (stats w)
        ∧ lookup_node (fs w') ideas_path = Some (File (concat [["n"; "o"]%byte]))
        ∧ ledger w' = ledger w
        ∧ ∀ E', sync_file E' "APP_PAPER" "" ["Paper"; "viwoods_sync"] "ideas" "N1" 100 w'
                = (Ok tt, set_stats count_skipped w').
Proof.
  intros E w.
  apply (truncated_file_is_skipped_next E "APP_PAPER" "" ["Paper"; "viwoods_sync"]
           "ideas" "N1" 100 w "/storage/notes/N1.note" (Stream [["n"; "o"]%byte] true)
           (SyncRecord "N1" 100 4 "2025-01-01T12:00:00"
              "d41d8cd98f00b204e9800998ecf8427e")).
  - reflexivity.
  - simpl. lia.
  - reflexivity.
  - reflexivity.
  - split; [reflexivity | discriminate].
  - reflexivity.
  - reflexivity.
Defined.

(** ** What the handling of one file can touch *)

#[local] Instance only_writes_preorder p : PreOrder (only_writes p).
Proof.
  split.
  - intros w q _. by left.
  - intros w1 w2 w3 H12 H23 q Hq.
    destruct (H12 q Hq) as [Hsame|[Hnone Hdir]], (H23 q Hq) as [Hsame'|[Hnone' Hdir']].
    + left. congruence.
    + right. split; congruence.
    + right. split; congruence.
    + congruence.
Qed.







(** ** Mirror paths *)





Example absolute_name_is_written_outside :
  let w := (sync_file steady_device "APP_PAPER" "" ["Paper"; "viwoods_sync"]
              "/srv/ideas" "N1" 100 empty_world).2 in
  fs w !! ["ideas.note"; "srv"] = Some (File ["n"; "o"; "t"; "e"]%byte)
  ∧ fs w !! ["ideas.note"; "srv"; "Paper"; "viwoods_sync"] = None.
Proof. vm_compute. done. Qed.
